(** * fhevm-react-template: SDK core, React adapter and matching contract

    A shallow embedding of
    - [packages/fhevm-sdk/src/core/client.ts] (client registry, [encrypt]
      and its byte-packing helpers),
    - [packages/fhevm-sdk/src/react/provider.tsx] and [hooks/useFhevm.ts]
      (the context lookup behind the status hook),
    - [contracts/PrivateRentalMatching.sol] (listings, requests, matches),
    together with the properties stated about them. *)

From Stdlib Require Import ZArith NArith Lia Bool String Ascii.
From stdpp Require Import base tactics option numbers list gmap strings.

Local Open Scope Z_scope.

(** ** Outcomes of calls that may throw (or of promises that may reject) *)

(** The exceptions the SDK core can raise: [new Error(msg)], and the
    [RangeError] the engine raises when [BigInt()] is applied to a number
    that is not an integer (the engine's message text is not modelled). *)
Inductive exn : Type :=
  | JsError (msg : string)
  | JsRangeError.

(** [`${error}`] for a caught exception. *)
Definition exn_to_string (e : exn) : string :=
  match e with
  | JsError msg => "Error: " +:+ msg
  | JsRangeError => "RangeError"
  end.

Inductive result (A : Type) : Type :=
  | Ok (a : A)
  | Throw (e : exn).
Arguments Ok {A} a.
Arguments Throw {A} e.

#[global] Instance result_ret : MRet result := fun _ a => Ok a.
#[global] Instance result_bind : MBind result := fun _ _ k r =>
  match r with
  | Ok a => k a
  | Throw e => Throw e
  end.

(** [try { body } catch (error) { throw h(error) }] *)
Definition try_catch {A} (body : result A) (h : exn → exn) : result A :=
  match body with
  | Ok a => Ok a
  | Throw e => Throw (h e)
  end.

(** ** types/index.ts *)

Inductive FheType : Type :=
  | euint8 | euint16 | euint32 | euint64 | euint128 | euint256
  | ebool | eaddress.

#[global] Instance FheType_eq_dec : EqDecision FheType.
Proof. solve_decision. Defined.

(** The string a type tag is at run time. *)
Definition FheType_tag (t : FheType) : string :=
  match t with
  | euint8 => "euint8"
  | euint16 => "euint16"
  | euint32 => "euint32"
  | euint64 => "euint64"
  | euint128 => "euint128"
  | euint256 => "euint256"
  | ebool => "ebool"
  | eaddress => "eaddress"
  end.

Inductive Network : Type := sepolia | mainnet | localhost.

Record FhevmConfig : Type := {
  network : Network;
  gatewayUrl : string;
  aclAddress : option string;
  kmsVerifierAddress : option string;
  chainId : option Z;
  debug : option bool;
}.

Record EncryptedValue : Type := {
  ciphertext : string;
  ev_type : FheType;
}.

(** A JavaScript [number]: an integer-valued double (given by its value),
    [NaN], or any other double (fractional or an infinity). [BigInt()]
    throws on the last two kinds; only [NaN] and zero are falsy. Not every
    integer is a double; what is proved for every [Integral z] holds in
    particular for those that are. *)
Inductive jsnumber : Type :=
  | Integral (z : Z)
  | NonIntegral
  | NotANumber.

(** [number | bigint | boolean] *)
Inductive value : Type :=
  | VNumber (n : jsnumber)
  | VBigInt (z : Z)
  | VBoolean (b : bool).

(** ** core/client.ts: byte packing *)
Module Core.

(** [typeof value === 'bigint' ? value : BigInt(value)] *)
Definition toBigInt (v : value) : result Z :=
  match v with
  | VBigInt z => Ok z
  | VNumber (Integral z) => Ok z
  | VNumber NonIntegral => Throw JsRangeError
  | VNumber NotANumber => Throw JsRangeError
  | VBoolean b => Ok (if b then 1 else 0)
  end.

(** Truthiness of [value] in [value ? 1 : 0]. *)
Definition truthy (v : value) : bool :=
  match v with
  | VBoolean b => b
  | VBigInt z => negb (z =? 0)
  | VNumber (Integral z) => negb (z =? 0)
  | VNumber NonIntegral => true
  | VNumber NotANumber => false
  end.

Definition validateInput (v : value) (t : FheType) : result bool :=
  if decide (t = ebool) then
    Ok (match v with VBoolean _ => true | _ => false end)
  else
    numValue ← toBigInt v;
    match t with
    | euint8 => Ok ((0 <=? numValue) && (numValue <=? 255))
    | euint16 => Ok ((0 <=? numValue) && (numValue <=? 65535))
    | euint32 => Ok ((0 <=? numValue) && (numValue <=? 4294967295))
    | euint64 => Ok ((0 <=? numValue) && (numValue <=? 18446744073709551615))
    | _ => Ok true
    end.

Definition getByteLengthForType (t : FheType) : nat :=
  match t with
  | euint8 | ebool => 1
  | euint16 => 2
  | euint32 => 4
  | euint64 => 8
  | euint128 => 16
  | euint256 => 32
  | _ => 32
  end.

(** One iteration of the [for] loop of [valueToBytes]: the state is the
    array and [tempValue]. *)
Definition valueToBytes_step (st : list Z * Z) (i : nat) : list Z * Z :=
  let '(bytes, tempValue) := st in
  (<[i := Z.land tempValue 255]> bytes, Z.shiftr tempValue 8).

(** [new Uint8Array(byteLength)] is zero-filled; elements are kept as
    integers in [0, 255]. *)
Definition valueToBytes (v : value) (t : FheType) : result (list Z) :=
  if decide (t = ebool) then
    Ok [if truthy v then 1 else 0]
  else
    numValue ← toBigInt v;
    let byteLength := getByteLengthForType t in
    let bytes := replicate byteLength 0 in
    Ok (fst (foldl valueToBytes_step (bytes, numValue) (seq 0 byteLength))).

(** [b.toString(16)] for an element [b] of a [Uint8Array]. *)
Definition hexDigit (d : Z) : string :=
  match d with
  | 0 => "0" | 1 => "1" | 2 => "2" | 3 => "3" | 4 => "4" | 5 => "5"
  | 6 => "6" | 7 => "7" | 8 => "8" | 9 => "9" | 10 => "a" | 11 => "b"
  | 12 => "c" | 13 => "d" | 14 => "e" | _ => "f"
  end.

Definition toString16 (b : Z) : string :=
  if b <? 16 then hexDigit b else hexDigit (b / 16) +:+ hexDigit (b mod 16).

(** [s.padStart(2, '0')] *)
Definition padStart2 (s : string) : string :=
  if (String.length s <? 2)%nat then "0" +:+ s else s.

(** [Array.from(bytes).map(...).join('')] followed by the template. *)
Definition performEncryption (bytes : list Z) (t : FheType) (config : FhevmConfig)
  : string :=
  let bytesHex := foldr (fun b acc => padStart2 (toString16 b) +:+ acc) "" bytes in
  "0x" +:+ bytesHex +:+ FheType_tag t.

(** [encrypt]; the debug [console.log] is not modelled. *)
Definition encrypt (v : value) (t : FheType) (config : FhevmConfig)
  : result EncryptedValue :=
  ok ← validateInput v t;
  if negb ok then
    Throw (JsError ("Invalid input for type " +:+ FheType_tag t))
  else
    try_catch
      (bytes ← valueToBytes v t;
       let ciphertext := performEncryption bytes t config in
       Ok {| ciphertext := ciphertext; ev_type := t |})
      (fun error => JsError ("Encryption failed: " +:+ exn_to_string error)).

End Core.

(** ** core/client.ts: the client registry *)
Module Registry.

(** An [FhevmClient] object. Its four function fields are closures over
    [config] and are determined by it; [isInitialized] is the one field
    the code assigns after construction. *)
Record FhevmClient : Type := {
  config : FhevmConfig;
  isInitialized : bool;
}.

Definition client_encrypt (c : FhevmClient) (v : value) (t : FheType)
  : result EncryptedValue :=
  Core.encrypt v t (config c).

(** Objects live in a heap and are named by references, so that two
    variables can hold the same client. [globalInstance] is the
    module-level variable. *)
Definition ref := nat.

Record Runtime : Type := {
  heap : list FhevmClient;
  globalInstance : option ref;
}.

(** What [fetch(url, {method: 'GET'})] settles to: a response with its
    [ok] flag, or a rejection. *)
Inductive fetch_outcome : Type :=
  | Responds (ok : bool)
  | Rejects (e : exn).

Definition Fetch := string → fetch_outcome.

Definition testGatewayConnection (fetch : Fetch) (gatewayUrl : string)
  : result unit :=
  try_catch
    (match fetch (gatewayUrl +:+ "/health") with
     | Rejects e => Throw e
     | Responds ok =>
         if negb ok then Throw (JsError "Gateway health check failed")
         else Ok tt
     end)
    (fun _ => JsError ("Cannot connect to Gateway at " +:+ gatewayUrl)).

(** [globalInstance && globalInstance.isInitialized] *)
Definition readyInstance (rt : Runtime) : option ref :=
  match globalInstance rt with
  | Some r =>
      match heap rt !! r with
      | Some c => if isInitialized c then Some r else None
      | None => None
      end
  | None => None
  end.

(** [initFhevm]: the outcome of the returned promise and the runtime
    after it settled. The debug [console.log] is not modelled. *)
Definition initFhevm (fetch : Fetch) (cfg : FhevmConfig) (rt : Runtime)
  : result ref * Runtime :=
  match readyInstance rt with
  | Some r => (Ok r, rt)
  | None =>
      let client := length (heap rt) in
      let heap1 := heap rt ++ [{| config := cfg; isInitialized := false |}] in
      match testGatewayConnection fetch (gatewayUrl cfg) with
      | Ok _ =>
          let heap2 :=
            <[client := {| config := cfg; isInitialized := true |}]> heap1 in
          (Ok client, {| heap := heap2; globalInstance := Some client |})
      | Throw error =>
          (Throw (JsError ("Failed to initialize FHEVM SDK: "
                           +:+ exn_to_string error)),
           {| heap := heap1; globalInstance := globalInstance rt |})
      end
  end.

Definition getFhevmClient (rt : Runtime) : option ref := globalInstance rt.

End Registry.

(** ** react/provider.tsx and react/hooks/useFhevm.ts *)
Module React.

Record FhevmContextValue : Type := {
  client : option Registry.ref;
  isInitialized : bool;
  isInitializing : bool;
  error : option exn;
}.

(** A context object made by [createContext(defaultValue)]. A context
    value is a JavaScript value; [None] stands for [null]/[undefined],
    the values [!context] is true of (an object is never falsy). *)
Record Context (A : Type) : Type := { defaultValue : option A }.
Arguments defaultValue {A} c.

(** [useContext(ctx)] in a component whose enclosing [ctx.Provider]s
    publish [providers], innermost first: the nearest provider's value,
    or the context's default when there is none. *)
Definition useContext {A} (ctx : Context A) (providers : list (option A))
  : option A :=
  match providers with
  | v :: _ => v
  | [] => defaultValue ctx
  end.

Definition FhevmContext : Context FhevmContextValue :=
  {| defaultValue :=
       Some {| client := None; isInitialized := false;
               isInitializing := false; error := None |} |}.

(** The [value] object [FhevmProvider] builds from its four state
    variables and hands to [FhevmContext.Provider]. *)
Definition FhevmProvider_value (c : option Registry.ref)
    (initialized initializing : bool) (err : option exn)
  : option FhevmContextValue :=
  Some {| client := c; isInitialized := initialized;
          isInitializing := initializing; error := err |}.

Definition useFhevmContext (providers : list (option FhevmContextValue))
  : result FhevmContextValue :=
  match useContext FhevmContext providers with
  | None => Throw (JsError "useFhevmContext must be used within FhevmProvider")
  | Some context => Ok context
  end.

Record UseFhevmReturn : Type := {
  ret_client : option Registry.ref;
  ret_isInitialized : bool;
  ret_isInitializing : bool;
  ret_error : option exn;
}.

Definition useFhevm (providers : list (option FhevmContextValue))
  : result UseFhevmReturn :=
  ctx ← useFhevmContext providers;
  Ok {| ret_client := client ctx;
        ret_isInitialized := isInitialized ctx;
        ret_isInitializing := isInitializing ctx;
        ret_error := error ctx |}.

End React.

(** ** contracts/PrivateRentalMatching.sol *)
Module Contract.

Local Open Scope N_scope.

(** An [address] and the zero address. *)
Definition address := N.
Definition address0 : address := 0.

(** Largest [uint256]; [++] on a [uint256] panics beyond it. *)
Definition uint256_max : N := 2 ^ 256 - 1.

(** Handles of the FHE library ([euint32], [euint8]). The library is
    outside the contract; a handle is modelled by the plaintext it was
    made from, and [None] is the handle of a storage slot never written. *)
Definition euint32 := option N.
Definition euint8 := option N.
Definition asEuint32 (x : N) : euint32 := Some x.
Definition asEuint8 (x : N) : euint8 := Some x.

Record PropertyListing : Type := {
  encryptedPrice : euint32;
  encryptedBedrooms : euint8;
  encryptedPostalCode : euint32;
  encryptedPropertyType : euint8;
  l_isActive : bool;
  l_landlord : address;
  l_timestamp : N;
  l_isMatched : bool;
}.

Record RentalRequest : Type := {
  encryptedMaxBudget : euint32;
  encryptedMinBedrooms : euint8;
  encryptedPreferredPostalCode : euint32;
  encryptedPreferredPropertyType : euint8;
  r_isActive : bool;
  r_tenant : address;
  r_timestamp : N;
  r_isMatched : bool;
}.

Record Match : Type := {
  m_listingId : N;
  m_requestId : N;
  m_landlord : address;
  m_tenant : address;
  m_timestamp : N;
  isConfirmed : bool;
  landlordConfirmed : bool;
  tenantConfirmed : bool;
}.

(** The value a mapping gives at a key never written. *)
Definition zeroListing : PropertyListing :=
  {| encryptedPrice := None; encryptedBedrooms := None;
     encryptedPostalCode := None; encryptedPropertyType := None;
     l_isActive := false; l_landlord := address0; l_timestamp := 0;
     l_isMatched := false |}.

Definition zeroRequest : RentalRequest :=
  {| encryptedMaxBudget := None; encryptedMinBedrooms := None;
     encryptedPreferredPostalCode := None;
     encryptedPreferredPropertyType := None;
     r_isActive := false; r_tenant := address0; r_timestamp := 0;
     r_isMatched := false |}.

Definition zeroMatch : Match :=
  {| m_listingId := 0; m_requestId := 0; m_landlord := address0;
     m_tenant := address0; m_timestamp := 0; isConfirmed := false;
     landlordConfirmed := false; tenantConfirmed := false |}.

Definition set_l_isActive (b : bool) (l : PropertyListing) : PropertyListing :=
  {| encryptedPrice := encryptedPrice l;
     encryptedBedrooms := encryptedBedrooms l;
     encryptedPostalCode := encryptedPostalCode l;
     encryptedPropertyType := encryptedPropertyType l;
     l_isActive := b; l_landlord := l_landlord l;
     l_timestamp := l_timestamp l; l_isMatched := l_isMatched l |}.

Definition set_l_isMatched (b : bool) (l : PropertyListing) : PropertyListing :=
  {| encryptedPrice := encryptedPrice l;
     encryptedBedrooms := encryptedBedrooms l;
     encryptedPostalCode := encryptedPostalCode l;
     encryptedPropertyType := encryptedPropertyType l;
     l_isActive := l_isActive l; l_landlord := l_landlord l;
     l_timestamp := l_timestamp l; l_isMatched := b |}.

Definition set_r_isActive (b : bool) (r : RentalRequest) : RentalRequest :=
  {| encryptedMaxBudget := encryptedMaxBudget r;
     encryptedMinBedrooms := encryptedMinBedrooms r;
     encryptedPreferredPostalCode := encryptedPreferredPostalCode r;
     encryptedPreferredPropertyType := encryptedPreferredPropertyType r;
     r_isActive := b; r_tenant := r_tenant r;
     r_timestamp := r_timestamp r; r_isMatched := r_isMatched r |}.

Definition set_r_isMatched (b : bool) (r : RentalRequest) : RentalRequest :=
  {| encryptedMaxBudget := encryptedMaxBudget r;
     encryptedMinBedrooms := encryptedMinBedrooms r;
     encryptedPreferredPostalCode := encryptedPreferredPostalCode r;
     encryptedPreferredPropertyType := encryptedPreferredPropertyType r;
     r_isActive := r_isActive r; r_tenant := r_tenant r;
     r_timestamp := r_timestamp r; r_isMatched := b |}.

Definition set_isConfirmed (b : bool) (m : Match) : Match :=
  {| m_listingId := m_listingId m; m_requestId := m_requestId m;
     m_landlord := m_landlord m; m_tenant := m_tenant m;
     m_timestamp := m_timestamp m; isConfirmed := b;
     landlordConfirmed := landlordConfirmed m;
     tenantConfirmed := tenantConfirmed m |}.

Definition set_landlordConfirmed (b : bool) (m : Match) : Match :=
  {| m_listingId := m_listingId m; m_requestId := m_requestId m;
     m_landlord := m_landlord m; m_tenant := m_tenant m;
     m_timestamp := m_timestamp m; isConfirmed := isConfirmed m;
     landlordConfirmed := b;
     tenantConfirmed := tenantConfirmed m |}.

Definition set_tenantConfirmed (b : bool) (m : Match) : Match :=
  {| m_listingId := m_listingId m; m_requestId := m_requestId m;
     m_landlord := m_landlord m; m_tenant := m_tenant m;
     m_timestamp := m_timestamp m; isConfirmed := isConfirmed m;
     landlordConfirmed := landlordConfirmed m;
     tenantConfirmed := b |}.

(** The contract's storage. *)
Record State : Type := {
  owner : address;
  listingIdCounter : N;
  requestIdCounter : N;
  matchCounter : N;
  kmsGeneration : N;
  pauserAddresses : list address;
  isPaused : bool;
  isPauserAddress : gmap address bool;
  decryptionRequestCounter : N;
  listings : gmap N PropertyListing;
  requests : gmap N RentalRequest;
  matches : gmap N Match;
  userListings : gmap address (list N);
  userRequests : gmap address (list N);
}.

Definition set_listingIdCounter (v : N) (s : State) : State :=
  {| owner := owner s;
     listingIdCounter := v;
     requestIdCounter := requestIdCounter s;
     matchCounter := matchCounter s;
     kmsGeneration := kmsGeneration s;
     pauserAddresses := pauserAddresses s;
     isPaused := isPaused s;
     isPauserAddress := isPauserAddress s;
     decryptionRequestCounter := decryptionRequestCounter s;
     listings := listings s;
     requests := requests s;
     matches := matches s;
     userListings := userListings s;
     userRequests := userRequests s |}.

Definition set_requestIdCounter (v : N) (s : State) : State :=
  {| owner := owner s;
     listingIdCounter := listingIdCounter s;
     requestIdCounter := v;
     matchCounter := matchCounter s;
     kmsGeneration := kmsGeneration s;
     pauserAddresses := pauserAddresses s;
     isPaused := isPaused s;
     isPauserAddress := isPauserAddress s;
     decryptionRequestCounter := decryptionRequestCounter s;
     listings := listings s;
     requests := requests s;
     matches := matches s;
     userListings := userListings s;
     userRequests := userRequests s |}.

Definition set_matchCounter (v : N) (s : State) : State :=
  {| owner := owner s;
     listingIdCounter := listingIdCounter s;
     requestIdCounter := requestIdCounter s;
     matchCounter := v;
     kmsGeneration := kmsGeneration s;
     pauserAddresses := pauserAddresses s;
     isPaused := isPaused s;
     isPauserAddress := isPauserAddress s;
     decryptionRequestCounter := decryptionRequestCounter s;
     listings := listings s;
     requests := requests s;
     matches := matches s;
     userListings := userListings s;
     userRequests := userRequests s |}.

Definition set_pauserAddresses (v : list address) (s : State) : State :=
  {| owner := owner s;
     listingIdCounter := listingIdCounter s;
     requestIdCounter := requestIdCounter s;
     matchCounter := matchCounter s;
     kmsGeneration := kmsGeneration s;
     pauserAddresses := v;
     isPaused := isPaused s;
     isPauserAddress := isPauserAddress s;
     decryptionRequestCounter := decryptionRequestCounter s;
     listings := listings s;
     requests := requests s;
     matches := matches s;
     userListings := userListings s;
     userRequests := userRequests s |}.

Definition set_isPaused (v : bool) (s : State) : State :=
  {| owner := owner s;
     listingIdCounter := listingIdCounter s;
     requestIdCounter := requestIdCounter s;
     matchCounter := matchCounter s;
     kmsGeneration := kmsGeneration s;
     pauserAddresses := pauserAddresses s;
     isPaused := v;
     isPauserAddress := isPauserAddress s;
     decryptionRequestCounter := decryptionRequestCounter s;
     listings := listings s;
     requests := requests s;
     matches := matches s;
     userListings := userListings s;
     userRequests := userRequests s |}.

Definition set_isPauserAddress (v : gmap address bool) (s : State) : State :=
  {| owner := owner s;
     listingIdCounter := listingIdCounter s;
     requestIdCounter := requestIdCounter s;
     matchCounter := matchCounter s;
     kmsGeneration := kmsGeneration s;
     pauserAddresses := pauserAddresses s;
     isPaused := isPaused s;
     isPauserAddress := v;
     decryptionRequestCounter := decryptionRequestCounter s;
     listings := listings s;
     requests := requests s;
     matches := matches s;
     userListings := userListings s;
     userRequests := userRequests s |}.

Definition set_listings (v : gmap N PropertyListing) (s : State) : State :=
  {| owner := owner s;
     listingIdCounter := listingIdCounter s;
     requestIdCounter := requestIdCounter s;
     matchCounter := matchCounter s;
     kmsGeneration := kmsGeneration s;
     pauserAddresses := pauserAddresses s;
     isPaused := isPaused s;
     isPauserAddress := isPauserAddress s;
     decryptionRequestCounter := decryptionRequestCounter s;
     listings := v;
     requests := requests s;
     matches := matches s;
     userListings := userListings s;
     userRequests := userRequests s |}.

Definition set_requests (v : gmap N RentalRequest) (s : State) : State :=
  {| owner := owner s;
     listingIdCounter := listingIdCounter s;
     requestIdCounter := requestIdCounter s;
     matchCounter := matchCounter s;
     kmsGeneration := kmsGeneration s;
     pauserAddresses := pauserAddresses s;
     isPaused := isPaused s;
     isPauserAddress := isPauserAddress s;
     decryptionRequestCounter := decryptionRequestCounter s;
     listings := listings s;
     requests := v;
     matches := matches s;
     userListings := userListings s;
     userRequests := userRequests s |}.

Definition set_matches (v : gmap N Match) (s : State) : State :=
  {| owner := owner s;
     listingIdCounter := listingIdCounter s;
     requestIdCounter := requestIdCounter s;
     matchCounter := matchCounter s;
     kmsGeneration := kmsGeneration s;
     pauserAddresses := pauserAddresses s;
     isPaused := isPaused s;
     isPauserAddress := isPauserAddress s;
     decryptionRequestCounter := decryptionRequestCounter s;
     listings := listings s;
     requests := requests s;
     matches := v;
     userListings := userListings s;
     userRequests := userRequests s |}.

Definition set_userListings (v : gmap address (list N)) (s : State) : State :=
  {| owner := owner s;
     listingIdCounter := listingIdCounter s;
     requestIdCounter := requestIdCounter s;
     matchCounter := matchCounter s;
     kmsGeneration := kmsGeneration s;
     pauserAddresses := pauserAddresses s;
     isPaused := isPaused s;
     isPauserAddress := isPauserAddress s;
     decryptionRequestCounter := decryptionRequestCounter s;
     listings := listings s;
     requests := requests s;
     matches := matches s;
     userListings := v;
     userRequests := userRequests s |}.

Definition set_userRequests (v : gmap address (list N)) (s : State) : State :=
  {| owner := owner s;
     listingIdCounter := listingIdCounter s;
     requestIdCounter := requestIdCounter s;
     matchCounter := matchCounter s;
     kmsGeneration := kmsGeneration s;
     pauserAddresses := pauserAddresses s;
     isPaused := isPaused s;
     isPauserAddress := isPauserAddress s;
     decryptionRequestCounter := decryptionRequestCounter s;
     listings := listings s;
     requests := requests s;
     matches := matches s;
     userListings := userListings s;
     userRequests := v |}.

(** Reading a mapping: the stored value, or the zero value. *)
Definition listingAt (s : State) (id : N) : PropertyListing :=
  default zeroListing (listings s !! id).
Definition requestAt (s : State) (id : N) : RentalRequest :=
  default zeroRequest (requests s !! id).
Definition matchAt (s : State) (id : N) : Match :=
  default zeroMatch (matches s !! id).
Definition isPauser (s : State) (a : address) : bool :=
  default false (isPauserAddress s !! a).
Definition userListingsAt (s : State) (a : address) : list N :=
  default [] (userListings s !! a).
Definition userRequestsAt (s : State) (a : address) : list N :=
  default [] (userRequests s !! a).

Inductive Event : Type :=
  | ListingCreated (listingId : N) (landlord : address)
  | RequestCreated (requestId : N) (tenant : address)
  | MatchCreated (matchId listingId requestId : N)
  | MatchConfirmed (matchId : N) (confirmer : address)
  | ListingDeactivated (listingId : N)
  | RequestCancelled (requestId : N)
  | Paused (account : address)
  | Unpaused (account : address)
  | PauserAdded (account : address)
  | PauserRemoved (account : address).

(** Why a call failed: [require]/[revert] with a reason string, or a
    panic (code 0x11 is arithmetic overflow). *)
Inductive failure : Type :=
  | RevertWith (reason : string)
  | Panic (code : N).

Inductive txresult (A : Type) : Type :=
  | Success (a : A) (s : State) (evs : list Event)
  | Failed (f : failure).
Arguments Success {A} a s evs.
Arguments Failed {A} f.

(** The body of an external function: it runs on the storage and the
    events emitted so far, and either finishes or fails. *)
Definition M (A : Type) : Type := State → list Event → txresult A.

#[global] Instance M_ret : MRet M := fun _ a s evs => Success a s evs.
#[global] Instance M_bind : MBind M := fun _ _ k m s evs =>
  match m s evs with
  | Success a s' evs' => k a s' evs'
  | Failed f => Failed f
  end.

Definition require (cond : bool) (reason : string) : M unit :=
  fun s evs => if cond then Success tt s evs else Failed (RevertWith reason).
Definition revert {A} (reason : string) : M A :=
  fun _ _ => Failed (RevertWith reason).
Definition panic {A} (code : N) : M A :=
  fun _ _ => Failed (Panic code).
Definition gets {A} (f : State → A) : M A :=
  fun s evs => Success (f s) s evs.
Definition modify (f : State → State) : M unit :=
  fun s evs => Success tt (f s) evs.
Definition emit (e : Event) : M unit :=
  fun s evs => Success tt s (evs ++ [e]).

(** [x++] on a [uint256] (checked arithmetic of Solidity 0.8). *)
Definition increment (x : N) : M N :=
  if x <? uint256_max then mret (x + 1) else panic 17.

(** [msg.sender] and [block.timestamp] of a call. *)
Record Env : Type := {
  sender : address;
  timestamp : N;
}.

Section Calls.
Variable env : Env.

Definition onlyOwner : M unit :=
  o ← gets owner;
  require (bool_decide (sender env = o)) "Not authorized".

Definition whenNotPaused : M unit :=
  p ← gets isPaused;
  require (negb p) "Contract is paused".

(** The body of [createListing], on the decoded arguments. The contract
    declares [_price] and [_postalCode] as [uint32] and [_bedrooms] and
    [_propertyType] as [uint8]: the body runs only on arguments below
    [2 ^ 32] and [2 ^ 8], and this definition is the contract's on those
    (a call whose argument word is wider is refused before the body, which
    is not modelled). The same holds for [createRequest].

    The [FHE.allowThis] / [FHE.allow] calls go to the library's access
    control list, outside this contract's storage; they are not modelled. *)
Definition createListing (_price _bedrooms _postalCode _propertyType : N)
  : M unit :=
  whenNotPaused;;
  require (0 <? _price) "Price must be greater than 0";;
  require ((0 <? _bedrooms) && (_bedrooms <=? 10)) "Invalid bedroom count";;
  require ((1 <=? _propertyType) && (_propertyType <=? 3))
    "Invalid property type";;
  let encryptedPrice := asEuint32 _price in
  let encryptedBedrooms := asEuint8 _bedrooms in
  let encryptedPostalCode := asEuint32 _postalCode in
  let encryptedPropertyType := asEuint8 _propertyType in
  id ← gets listingIdCounter;
  modify (fun s => set_listings (<[id :=
    {| encryptedPrice := encryptedPrice;
       encryptedBedrooms := encryptedBedrooms;
       encryptedPostalCode := encryptedPostalCode;
       encryptedPropertyType := encryptedPropertyType;
       l_isActive := true;
       l_landlord := sender env;
       l_timestamp := timestamp env;
       l_isMatched := false |}]> (listings s)) s);;
  modify (fun s => set_userListings
    (<[sender env := userListingsAt s (sender env) ++ [id]]> (userListings s)) s);;
  emit (ListingCreated id (sender env));;
  id' ← increment id;
  modify (set_listingIdCounter id').

Definition createRequest
    (_maxBudget _minBedrooms _preferredPostalCode _preferredPropertyType : N)
  : M unit :=
  whenNotPaused;;
  require (0 <? _maxBudget) "Budget must be greater than 0";;
  require ((0 <? _minBedrooms) && (_minBedrooms <=? 10))
    "Invalid bedroom count";;
  require ((1 <=? _preferredPropertyType) && (_preferredPropertyType <=? 3))
    "Invalid property type";;
  let encryptedMaxBudget := asEuint32 _maxBudget in
  let encryptedMinBedrooms := asEuint8 _minBedrooms in
  let encryptedPreferredPostalCode := asEuint32 _preferredPostalCode in
  let encryptedPreferredPropertyType := asEuint8 _preferredPropertyType in
  id ← gets requestIdCounter;
  modify (fun s => set_requests (<[id :=
    {| encryptedMaxBudget := encryptedMaxBudget;
       encryptedMinBedrooms := encryptedMinBedrooms;
       encryptedPreferredPostalCode := encryptedPreferredPostalCode;
       encryptedPreferredPropertyType := encryptedPreferredPropertyType;
       r_isActive := true;
       r_tenant := sender env;
       r_timestamp := timestamp env;
       r_isMatched := false |}]> (requests s)) s);;
  modify (fun s => set_userRequests
    (<[sender env := userRequestsAt s (sender env) ++ [id]]> (userRequests s)) s);;
  emit (RequestCreated id (sender env));;
  id' ← increment id;
  modify (set_requestIdCounter id').

(** The four [FHE.le]/[FHE.ge]/[FHE.eq] comparisons produce handles that
    are only passed to [FHE.allowThis]; nothing of them is stored. *)
Definition createMatch (_listingId _requestId : N) : M unit :=
  whenNotPaused;;
  la ← gets (fun s => l_isActive (listingAt s _listingId));
  require la "Listing not active";;
  ra ← gets (fun s => r_isActive (requestAt s _requestId));
  require ra "Request not active";;
  lm ← gets (fun s => l_isMatched (listingAt s _listingId));
  require (negb lm) "Listing already matched";;
  rm ← gets (fun s => r_isMatched (requestAt s _requestId));
  require (negb rm) "Request already matched";;
  listing ← gets (fun s => listingAt s _listingId);
  request ← gets (fun s => requestAt s _requestId);
  require (bool_decide (sender env = l_landlord listing)
           || bool_decide (sender env = r_tenant request))
    "Not authorized to create this match";;
  id ← gets matchCounter;
  modify (fun s => set_matches (<[id :=
    {| m_listingId := _listingId;
       m_requestId := _requestId;
       m_landlord := l_landlord listing;
       m_tenant := r_tenant request;
       m_timestamp := timestamp env;
       isConfirmed := false;
       landlordConfirmed := false;
       tenantConfirmed := false |}]> (matches s)) s);;
  modify (fun s => set_listings
    (<[_listingId := set_l_isMatched true (listingAt s _listingId)]>
       (listings s)) s);;
  modify (fun s => set_requests
    (<[_requestId := set_r_isMatched true (requestAt s _requestId)]>
       (requests s)) s);;
  emit (MatchCreated id _listingId _requestId);;
  id' ← increment id;
  modify (set_matchCounter id').

(** A write through the storage reference [matchData]. *)
Definition update_match (_matchId : N) (f : Match → Match) : M unit :=
  modify (fun s => set_matches
    (<[_matchId := f (matchAt s _matchId)]> (matches s)) s).

Definition confirmMatch (_matchId : N) : M unit :=
  whenNotPaused;;
  ml ← gets (fun s => m_landlord (matchAt s _matchId));
  require (negb (bool_decide (ml = address0))) "Match does not exist";;
  mc ← gets (fun s => isConfirmed (matchAt s _matchId));
  require (negb mc) "Match already confirmed";;
  matchData ← gets (fun s => matchAt s _matchId);
  (if bool_decide (sender env = m_landlord matchData) then
     require (negb (landlordConfirmed matchData))
       "Already confirmed by landlord";;
     update_match _matchId (set_landlordConfirmed true)
   else if bool_decide (sender env = m_tenant matchData) then
     require (negb (tenantConfirmed matchData))
       "Already confirmed by tenant";;
     update_match _matchId (set_tenantConfirmed true)
   else
     revert "Not authorized to confirm this match");;
  matchData ← gets (fun s => matchAt s _matchId);
  (if landlordConfirmed matchData && tenantConfirmed matchData then
     update_match _matchId (set_isConfirmed true)
   else mret tt);;
  emit (MatchConfirmed _matchId (sender env)).

(** *** Entry points the tests and the specification name but the
    contract source does not contain *)

(** Modelled from the spec: [deactivateListing] is missing from the
    contract source. A listing is deactivated (active becomes false) only
    by its owner and is immutable once matched; the test suite gives the
    reasons for a missing listing and a foreign caller. *)
Definition deactivateListing (_listingId : N) : M unit :=
  l ← gets (fun s => listingAt s _listingId);
  require (negb (bool_decide (l_landlord l = address0)))
    "Listing does not exist";;
  require (bool_decide (sender env = l_landlord l)) "Not the listing owner";;
  require (negb (l_isMatched l)) "Listing already matched";;
  modify (fun s => set_listings
    (<[_listingId := set_l_isActive false (listingAt s _listingId)]>
       (listings s)) s);;
  emit (ListingDeactivated _listingId).

(** Modelled from the spec: [cancelRequest] is missing from the contract
    source. A request is cancelled (active becomes false) only by its
    owner. *)
Definition cancelRequest (_requestId : N) : M unit :=
  r ← gets (fun s => requestAt s _requestId);
  require (negb (bool_decide (r_tenant r = address0)))
    "Request does not exist";;
  require (bool_decide (sender env = r_tenant r)) "Not the request owner";;
  modify (fun s => set_requests
    (<[_requestId := set_r_isActive false (requestAt s _requestId)]>
       (requests s)) s);;
  emit (RequestCancelled _requestId).

(** Modelled from the spec: [pause] is missing from the contract source.
    The pause flag is settable only by the allow-listed pausers. *)
Definition pause : M unit :=
  ok ← gets (fun s => isPauser s (sender env));
  require ok "Not authorized to pause";;
  whenNotPaused;;
  modify (set_isPaused true);;
  emit (Paused (sender env)).

(** Modelled from the spec: [unpause] is missing from the contract
    source. *)
Definition unpause : M unit :=
  ok ← gets (fun s => isPauser s (sender env));
  require ok "Not authorized to pause";;
  p ← gets isPaused;
  require p "Contract is not paused";;
  modify (set_isPaused false);;
  emit (Unpaused (sender env)).

(** Modelled from the spec: [addPauser] is missing from the contract
    source. The pauser allow-list is managed by the owner. *)
Definition addPauser (_pauser : address) : M unit :=
  onlyOwner;;
  require (negb (bool_decide (_pauser = address0))) "Invalid pauser address";;
  modify (fun s => set_pauserAddresses (pauserAddresses s ++ [_pauser]) s);;
  modify (fun s => set_isPauserAddress
    (<[_pauser := true]> (isPauserAddress s)) s);;
  emit (PauserAdded _pauser).

(** Modelled from the spec: [removePauser] is missing from the contract
    source. *)
Definition removePauser (_pauser : address) : M unit :=
  onlyOwner;;
  modify (fun s => set_isPauserAddress
    (<[_pauser := false]> (isPauserAddress s)) s);;
  emit (PauserRemoved _pauser).

End Calls.

(** The constructor, run by the deployer. *)
Definition constructor (env : Env) (_pauserAddresses : list address)
    (_kmsGeneration : N) : State :=
  let s0 :=
    {| owner := sender env;
       listingIdCounter := 1;
       requestIdCounter := 1;
       matchCounter := 1;
       kmsGeneration := _kmsGeneration;
       pauserAddresses := [];
       isPaused := false;
       isPauserAddress := ∅;
       decryptionRequestCounter := 0;
       listings := ∅; requests := ∅; matches := ∅;
       userListings := ∅; userRequests := ∅ |} in
  foldl (fun s a =>
           set_isPauserAddress (<[a := true]> (isPauserAddress s))
             (set_pauserAddresses (pauserAddresses s ++ [a]) s))
        s0 _pauserAddresses.

(** *** View functions *)

Definition getUserListings (s : State) (_user : address) : list N :=
  userListingsAt s _user.

Definition getUserRequests (s : State) (_user : address) : list N :=
  userRequestsAt s _user.

(** The ids [1 .. counter - 1] the counting loops run over. *)
Definition ids_below (counter : N) : list N :=
  N.of_nat <$> seq 1 (N.to_nat counter - 1).

Definition getActiveListingsCount (s : State) : N :=
  foldl (fun count i =>
           if l_isActive (listingAt s i) && negb (l_isMatched (listingAt s i))
           then count + 1 else count)
        0 (ids_below (listingIdCounter s)).

Definition getActiveRequestsCount (s : State) : N :=
  foldl (fun count i =>
           if r_isActive (requestAt s i) && negb (r_isMatched (requestAt s i))
           then count + 1 else count)
        0 (ids_below (requestIdCounter s)).

(** *** Transactions *)

Inductive Call : Type :=
  | CreateListing (_price _bedrooms _postalCode _propertyType : N)
  | CreateRequest
      (_maxBudget _minBedrooms _preferredPostalCode _preferredPropertyType : N)
  | CreateMatch (_listingId _requestId : N)
  | ConfirmMatch (_matchId : N)
  | DeactivateListing (_listingId : N)
  | CancelRequest (_requestId : N)
  | Pause
  | Unpause
  | AddPauser (_pauser : address)
  | RemovePauser (_pauser : address).

#[global] Instance Call_eq_dec : EqDecision Call.
Proof. solve_decision. Defined.

Definition body (env : Env) (c : Call) : M unit :=
  match c with
  | CreateListing p b z t => createListing env p b z t
  | CreateRequest p b z t => createRequest env p b z t
  | CreateMatch l r => createMatch env l r
  | ConfirmMatch m => confirmMatch env m
  | DeactivateListing l => deactivateListing env l
  | CancelRequest r => cancelRequest env r
  | Pause => pause env
  | Unpause => unpause env
  | AddPauser a => addPauser env a
  | RemovePauser a => removePauser env a
  end.

(** What a transaction leaves behind: its events, or why it failed. *)
Inductive Receipt : Type :=
  | Mined (evs : list Event)
  | Reverted (f : failure).

(** A transaction runs the body on the current storage with an empty
    event log; a failure discards every storage write and every event. *)
Definition transact (env : Env) (c : Call) (s : State) : State * Receipt :=
  match body env c s [] with
  | Success _ s' evs => (s', Mined evs)
  | Failed f => (s, Reverted f)
  end.

Definition succeeds (env : Env) (c : Call) (s : State) : bool :=
  match transact env c s with
  | (_, Mined _) => true
  | (_, Reverted _) => false
  end.

(** A sequence of transactions, in ledger order. *)
Definition Tx : Type := Env * Call.

Fixpoint run (s : State) (txs : list Tx) : State :=
  match txs with
  | [] => s
  | (env, c) :: txs' => run (fst (transact env c s)) txs'
  end.

(** The transactions of [txs] that were mined when run from [s]. *)
Fixpoint mined (s : State) (txs : list Tx) : list Tx :=
  match txs with
  | [] => []
  | (env, c) :: txs' =>
      let rest := mined (fst (transact env c s)) txs' in
      if succeeds env c s then (env, c) :: rest else rest
  end.

(** How many times [who] has confirmed match [matchId] (mined
    [confirmMatch] transactions) when [txs] is run from [s]. *)
Definition confirmations (s : State) (txs : list Tx) (matchId : N)
    (who : address) : nat :=
  length (filter (fun tx : Tx =>
                    sender (fst tx) = who ∧ snd tx = ConfirmMatch matchId)
                 (mined s txs)).

(** States the contract can be in: after deployment and any sequence of
    transactions. *)
Inductive reachable : State → Prop :=
  | reachable_deploy env pausers kms :
      reachable (constructor env pausers kms)
  | reachable_step s env c :
      reachable s → reachable (fst (transact env c s)).

(** Ids handed out so far. *)
Definition listingExists (s : State) (id : N) : Prop :=
  1 ≤ id ∧ id < listingIdCounter s.
Definition requestExists (s : State) (id : N) : Prop :=
  1 ≤ id ∧ id < requestIdCounter s.
Definition matchExists (s : State) (id : N) : Prop :=
  1 ≤ id ∧ id < matchCounter s.

End Contract.

(** ** Reference notions the properties are stated against *)

(** A configuration to evaluate the code on. *)
Definition cfg0 : FhevmConfig :=
  {| network := localhost; gatewayUrl := "http://localhost:8545";
     aclAddress := None; kmsVerifierAddress := None; chainId := None;
     debug := None |}.

(** Width in bits of the declared unsigned-integer types. *)
Definition uint_bits (t : FheType) : option nat :=
  match t with
  | euint8 => Some 8%nat
  | euint16 => Some 16%nat
  | euint32 => Some 32%nat
  | euint64 => Some 64%nat
  | euint128 => Some 128%nat
  | euint256 => Some 256%nat
  | ebool | eaddress => None
  end.

(** [v] is in the range of an unsigned integer of [bits] bits. *)
Definition in_range (bits : nat) (v : Z) : Prop :=
  0 ≤ v < 2 ^ Z.of_nat bits.

(** Little-endian encoding on [width] bytes: byte [i] carries the digit of
    weight [256 ^ i]. *)
Definition le_encode (width : nat) (v : Z) : list Z :=
  (fun i : nat => (v / 256 ^ Z.of_nat i) mod 256) <$> seq 0 width.

(** Little-endian decoding of a byte sequence. *)
Definition le_decode (bytes : list Z) : Z :=
  foldr (fun b acc => b + 256 * acc) 0 bytes.

(** Reading the bytes back from a mock ciphertext ["0x" + hex + tag]. *)
Definition hexValue (c : ascii) : option Z :=
  let n := Z.of_nat (nat_of_ascii c) in
  if (48 <=? n) && (n <=? 57) then Some (n - 48)
  else if (97 <=? n) && (n <=? 102) then Some (n - 87)
  else None.

Fixpoint unhex (count : nat) (s : string) : option (list Z) :=
  match count with
  | O => Some []
  | S count' =>
      match s with
      | String hi (String lo rest) =>
          h ← hexValue hi;
          l ← hexValue lo;
          tl ← unhex count' rest;
          Some (16 * h + l :: tl)
      | _ => None
      end
  end.

Definition ciphertext_bytes (t : FheType) (c : string) : option (list Z) :=
  match c with
  | String "0" (String "x" rest) => unhex (Core.getByteLengthForType t) rest
  | _ => None
  end.

(** The three creation-style entry points. *)
Definition creation_call (c : Contract.Call) : bool :=
  match c with
  | Contract.CreateListing _ _ _ _
  | Contract.CreateRequest _ _ _ _
  | Contract.CreateMatch _ _ => true
  | _ => false
  end.

(** What holds of the storage in every state the contract can be in:
    counters start at 1; nothing is stored at an id not handed out yet;
    a match is confirmed exactly when both party flags are set; when
    landlord and tenant are one address the tenant flag is never set; and
    a record without landlord has no flag set. *)
Record wf (s : Contract.State) : Prop := {
  wf_counters :
    (1 ≤ Contract.listingIdCounter s ∧ 1 ≤ Contract.requestIdCounter s
     ∧ 1 ≤ Contract.matchCounter s)%N;
  wf_listings : ∀ id,
    ¬ Contract.listingExists s id → Contract.listings s !! id = None;
  wf_requests : ∀ id,
    ¬ Contract.requestExists s id → Contract.requests s !! id = None;
  wf_matches : ∀ id,
    ¬ Contract.matchExists s id → Contract.matches s !! id = None;
  wf_confirmed : ∀ id,
    Contract.isConfirmed (Contract.matchAt s id)
    = Contract.landlordConfirmed (Contract.matchAt s id)
      && Contract.tenantConfirmed (Contract.matchAt s id);
  wf_self : ∀ id,
    Contract.m_landlord (Contract.matchAt s id)
    = Contract.m_tenant (Contract.matchAt s id) →
    Contract.tenantConfirmed (Contract.matchAt s id) = false;
  wf_nolandlord : ∀ id,
    Contract.m_landlord (Contract.matchAt s id) = Contract.address0 →
    Contract.landlordConfirmed (Contract.matchAt s id) = false
    ∧ Contract.tenantConfirmed (Contract.matchAt s id) = false;
}.

(** The caller of [createMatch] is one of the two counterparties. *)
Definition match_authorized (s : Contract.State) (env : Contract.Env)
    (l r : N) : Prop :=
  Contract.sender env = Contract.l_landlord (Contract.listingAt s l)
  ∨ Contract.sender env = Contract.r_tenant (Contract.requestAt s r).

(** Both records exist, are active and are unmatched. *)
Definition match_eligible (s : Contract.State) (l r : N) : Prop :=
  Contract.listingExists s l ∧ Contract.requestExists s r
  ∧ Contract.l_isActive (Contract.listingAt s l) = true
  ∧ Contract.r_isActive (Contract.requestAt s r) = true
  ∧ Contract.l_isMatched (Contract.listingAt s l) = false
  ∧ Contract.r_isMatched (Contract.requestAt s r) = false.

(** The number of confirmations by [who] that the flags of a match record
    account for. *)
Definition flag_count (m : Contract.Match) (who : Contract.address) : nat :=
  if bool_decide (Contract.m_landlord m = Contract.address0) then 0%nat
  else if bool_decide (who = Contract.m_landlord m) then
    Nat.b2n (Contract.landlordConfirmed m)
  else if bool_decide (who = Contract.m_tenant m) then
    Nat.b2n (Contract.tenantConfirmed m)
  else 0%nat.

(** *** A deployment and two histories to evaluate the contract on *)

Definition deployer : Contract.Env :=
  {| Contract.sender := 1%N; Contract.timestamp := 1000%N |}.
Definition pauser : Contract.Env :=
  {| Contract.sender := 2%N; Contract.timestamp := 1001%N |}.
Definition landlord : Contract.Env :=
  {| Contract.sender := 10%N; Contract.timestamp := 1002%N |}.
Definition tenant : Contract.Env :=
  {| Contract.sender := 20%N; Contract.timestamp := 1003%N |}.

Definition deployed : Contract.State :=
  Contract.constructor deployer [2%N; 1%N; 1%N; 1%N] 1%N.

(** The end-to-end scenario: a listing, a request that fits it, their
    match, and both confirmations. *)
Definition listed_and_requested : list Contract.Tx :=
  [ (landlord, Contract.CreateListing 2000 2 12345 1);
    (tenant, Contract.CreateRequest 2500 2 12345 1) ].

Definition end_to_end : list Contract.Tx :=
  listed_and_requested
  ++ [ (landlord, Contract.CreateMatch 1 1);
       (landlord, Contract.ConfirmMatch 1);
       (tenant, Contract.ConfirmMatch 1) ].

(** One address lists, requests, matches its own two records and then
    confirms. *)
Definition self_match : list Contract.Tx :=
  [ (landlord, Contract.CreateListing 2000 2 12345 1);
    (landlord, Contract.CreateRequest 2500 2 12345 1);
    (landlord, Contract.CreateMatch 1 1);
    (landlord, Contract.ConfirmMatch 1) ].

(** ** core/client.ts: [publicDecrypt], [userDecrypt] and
    [parseDecryptedValue]

    The third call of the file, [decrypt], is left out: its [return]
    statement reads [parseDe cryptedValue(data.value, request.type)], which
    is not an expression of the language, so the function has no behaviour
    to embed. *)
Module Gateway.

Record DecryptionRequest : Type := {
  dr_ciphertext : string;
  dr_type : FheType;
  contractAddress : string;
}.

(** [bigint | boolean | string] *)
Inductive decrypted : Type :=
  | DBigInt (z : Z)
  | DBoolean (b : bool)
  | DString (s : string).

Record DecryptedValue : Type := {
  dv_value : decrypted;
  dv_type : FheType;
}.

(** The object handed to [JSON.stringify] for the request body. *)
Inductive Body : Type :=
  | PublicDecryptBody (ciphertext : string) (type : FheType)
  | UserDecryptBody (request : DecryptionRequest) (signature : string).

(** Whatever is thrown inside the [try] blocks of the two calls reaches
    the caller only as the text [`${error}`]; a thrown value is modelled by
    that text. *)
Definition thrown := string.

(** A response: its [ok] flag and [statusText], and what [response.json()]
    settles to, a rejection or an object whose [value] field is the given
    string (its declared type). *)
Record Response : Type := {
  ok : bool;
  statusText : string;
  json : thrown + string;
}.

(** What [fetch(url, {method: 'POST', headers, body})] settles to. *)
Inductive post_outcome : Type :=
  | Settles (response : Response)
  | Fails (error : thrown).

Definition Post := string → Body → post_outcome.

Section Calls.

(** [BigInt(s)] on a string is the engine's: the integer it parses, or the
    text of the [SyntaxError] it throws. *)
Variable BigIntOfString : string → thrown + Z.
Variable fetch : Post.

Definition parseDecryptedValue (v : string) (t : FheType)
  : thrown + decrypted :=
  if decide (t = ebool) then
    inr (DBoolean (String.eqb v "1" || String.eqb v "true"))
  else if decide (t = eaddress) then
    inr (DString v)
  else
    match BigIntOfString v with
    | inl error => inl error
    | inr z => inr (DBigInt z)
    end.

Definition publicDecrypt (ciphertext : string) (type : FheType)
    (config : FhevmConfig) : result DecryptedValue :=
  match
    match fetch (gatewayUrl config +:+ "/public-decrypt")
            (PublicDecryptBody ciphertext type) with
    | Fails error => inl error
    | Settles response =>
        if negb (ok response) then
          inl ("Error: " +:+ "Gateway error: " +:+ statusText response)
        else
          match json response with
          | inl error => inl error
          | inr value =>
              match parseDecryptedValue value type with
              | inl error => inl error
              | inr v => inr {| dv_value := v; dv_type := type |}
              end
          end
    end
  with
  | inr d => Ok d
  | inl error => Throw (JsError ("Public decryption failed: " +:+ error))
  end.

Definition userDecrypt (request : DecryptionRequest) (signature : string)
    (config : FhevmConfig) : result DecryptedValue :=
  match
    match fetch (gatewayUrl config +:+ "/user-decrypt")
            (UserDecryptBody request signature) with
    | Fails error => inl error
    | Settles response =>
        if negb (ok response) then
          inl ("Error: " +:+ "Gateway error: " +:+ statusText response)
        else
          match json response with
          | inl error => inl error
          | inr value =>
              match parseDecryptedValue value (dr_type request) with
              | inl error => inl error
              | inr v => inr {| dv_value := v; dv_type := dr_type request |}
              end
          end
    end
  with
  | inr d => Ok d
  | inl error => Throw (JsError ("User decryption failed: " +:+ error))
  end.

End Calls.

End Gateway.

(** ** react/provider.tsx (the effect) and the encrypt and decrypt hooks *)
Module Hooks.

(** The provider's four state variables as first rendered. *)
Definition FhevmProvider_initial : React.FhevmContextValue :=
  {| React.client := None; React.isInitialized := false;
     React.isInitializing := true; React.error := None |}.

(** [newClient.isInitialized], read through the reference. *)
Definition client_isInitialized (rt : Registry.Runtime) (r : Registry.ref)
  : bool :=
  match Registry.heap rt !! r with
  | Some c => Registry.isInitialized c
  | None => false
  end.

(** The [initialize] function the provider's effect runs, from the state
    variables [st] and the runtime [rt] to what they are once it has
    settled. [console.error] is not modelled. *)
Definition FhevmProvider_initialize (fetch : Registry.Fetch)
    (config : FhevmConfig) (st : React.FhevmContextValue)
    (rt : Registry.Runtime) : React.FhevmContextValue * Registry.Runtime :=
  (* try: setIsInitializing(true), then one of the two branches *)
  let '(tried, rt') :=
    match Registry.readyInstance rt with
    | Some existingClient =>
        (Ok (Some existingClient, true), rt)
    | None =>
        match Registry.initFhevm fetch config rt with
        | (Ok newClient, rt1) =>
            (Ok (Some newClient, client_isInitialized rt1 newClient), rt1)
        | (Throw err, rt1) => (Throw err, rt1)
        end
    end in
  match tried with
  | Ok (c, initialized) =>
      (* setClient, setIsInitialized, setError(null); finally *)
      ({| React.client := c; React.isInitialized := initialized;
          React.isInitializing := false; React.error := None |}, rt')
  | Throw err =>
      (* catch: setError(err), setIsInitialized(false); finally *)
      ({| React.client := React.client st; React.isInitialized := false;
          React.isInitializing := false; React.error := Some err |}, rt')
  end.

(** The state variables of [useEncrypt]. *)
Record EncryptState : Type := {
  isEncrypting : bool;
  enc_error : option exn;
  enc_result : option EncryptedValue;
}.

Definition useEncrypt_initial : EncryptState :=
  {| isEncrypting := false; enc_error := None; enc_result := None |}.

(** The [encrypt] callback of [useEncrypt]. [client] is the object the
    context's reference leads to ([None] for [null]) and [isInitialized]
    the context's flag, both as of the render that made the callback. *)
Definition useEncrypt_encrypt (client : option Registry.FhevmClient)
    (isInitialized : bool) (v : value) (t : FheType) (hs : EncryptState)
  : result EncryptedValue * EncryptState :=
  match client with
  | Some c =>
      if negb isInitialized then
        (Throw (JsError "FHEVM client not initialized"), hs)
      else
        (* setIsEncrypting(true); setError(null) *)
        match Registry.client_encrypt c v t with
        | Ok encrypted =>
            (Ok encrypted,
             {| isEncrypting := false; enc_error := None;
                enc_result := Some encrypted |})
        | Throw err =>
            (Throw err,
             {| isEncrypting := false; enc_error := Some err;
                enc_result := enc_result hs |})
        end
  | None => (Throw (JsError "FHEVM client not initialized"), hs)
  end.

(** The state variables of [useDecrypt]. *)
Record DecryptState : Type := {
  isDecrypting : bool;
  dec_error : option exn;
  dec_result : option Gateway.DecryptedValue;
}.

Section DecryptHook.
Variable BigIntOfString : string → Gateway.thrown + Z.
Variable fetch : Gateway.Post.

(** What the guarded body of both callbacks does with the outcome of the
    client call. *)
Definition settle_decrypt (outcome : result Gateway.DecryptedValue)
    (hs : DecryptState) : result Gateway.DecryptedValue * DecryptState :=
  match outcome with
  | Ok decrypted =>
      (Ok decrypted,
       {| isDecrypting := false; dec_error := None;
          dec_result := Some decrypted |})
  | Throw err =>
      (Throw err,
       {| isDecrypting := false; dec_error := Some err;
          dec_result := dec_result hs |})
  end.

(** The [decrypt] callback of [useDecrypt]: it calls [client.userDecrypt]. *)
Definition useDecrypt_decrypt (client : option Registry.FhevmClient)
    (isInitialized : bool) (request : Gateway.DecryptionRequest)
    (signature : string) (hs : DecryptState)
  : result Gateway.DecryptedValue * DecryptState :=
  match client with
  | Some c =>
      if negb isInitialized then
        (Throw (JsError "FHEVM client not initialized"), hs)
      else
        settle_decrypt
          (Gateway.userDecrypt BigIntOfString fetch request signature
             (Registry.config c)) hs
  | None => (Throw (JsError "FHEVM client not initialized"), hs)
  end.

(** The [publicDecrypt] callback of [useDecrypt]. *)
Definition useDecrypt_publicDecrypt (client : option Registry.FhevmClient)
    (isInitialized : bool) (ciphertext : string) (type : FheType)
    (hs : DecryptState)
  : result Gateway.DecryptedValue * DecryptState :=
  match client with
  | Some c =>
      if negb isInitialized then
        (Throw (JsError "FHEVM client not initialized"), hs)
      else
        settle_decrypt
          (Gateway.publicDecrypt BigIntOfString fetch ciphertext type
             (Registry.config c)) hs
  | None => (Throw (JsError "FHEVM client not initialized"), hs)
  end.

End DecryptHook.

End Hooks.

(** ** Further reference notions *)

(** A runtime in which nothing has been initialized. *)
Definition rt0 : Registry.Runtime :=
  {| Registry.heap := []; Registry.globalInstance := None |}.

(** Successive [initFhevm] calls, each with the gateway as it then is and
    its own configuration. *)
Fixpoint run_inits (rt : Registry.Runtime)
    (calls : list (Registry.Fetch * FhevmConfig)) : Registry.Runtime :=
  match calls with
  | [] => rt
  | (fetch, cfg) :: calls' =>
      run_inits (snd (Registry.initFhevm fetch cfg rt)) calls'
  end.

(** A gateway that answers every decryption call with [value]; one that
    answers with a failure status; and a reader of decimal numerals to
    stand for the engine's [BigInt] where one is needed. *)
Definition answering (value : string) : Gateway.Post :=
  fun _ _ =>
    Gateway.Settles
      {| Gateway.ok := true; Gateway.statusText := "OK";
         Gateway.json := inr value |}.

Definition refusing (status : string) : Gateway.Post :=
  fun _ _ =>
    Gateway.Settles
      {| Gateway.ok := false; Gateway.statusText := status;
         Gateway.json := inl "SyntaxError: Unexpected end of JSON input" |}.

Definition only_42 (s : string) : Gateway.thrown + Z :=
  if String.eqb s "42" then inr 42
  else inl ("SyntaxError: Cannot convert " +:+ s +:+ " to a BigInt").

(** * Properties of the SDK core *)

Section BytePacking.

Lemma land_255 (z : Z) : Z.land z 255 = z mod 256.
Proof. change 255 with (Z.ones 8). by rewrite Z.land_ones. Qed.

(** The loop writes positions [k .. k+m-1] and leaves the prefix alone. *)
Lemma valueToBytes_loop (m : nat) :
  ∀ (k : nat) (bytes : list Z) (temp : Z),
    length bytes = (k + m)%nat →
    fst (foldl Core.valueToBytes_step (bytes, temp) (seq k m))
    = take k bytes
      ++ ((fun j : nat => (temp / 256 ^ Z.of_nat j) mod 256) <$> seq 0 m).
Proof.
  induction m as [|m IH]; intros k bytes temp Hlen.
  - simpl. rewrite app_nil_r, firstn_all2 by lia. reflexivity.
  - cbn [seq foldl Core.valueToBytes_step].
    rewrite IH by (rewrite length_insert; lia).
    rewrite (take_S_r _ _ (Z.land temp 255))
      by (apply list_lookup_insert_eq; lia).
    rewrite take_insert_ge by lia.
    rewrite <- app_assoc. f_equal.
    cbn [fmap list_fmap app]. f_equal.
    + rewrite land_255. f_equal. rewrite Z.div_1_r. reflexivity.
    + rewrite <- seq_shift, <- list_fmap_compose.
      apply list_fmap_ext. intros _ j _. cbn.
      rewrite Z.shiftr_div_pow2 by lia.
      rewrite Z.div_div by lia. do 2 f_equal.
      rewrite Nat2Z.inj_succ, Z.pow_succ_r by lia. reflexivity.
Qed.

Lemma valueToBytes_le (t : FheType) (v : value) (z : Z) :
  t ≠ ebool → Core.toBigInt v = Ok z →
  Core.valueToBytes v t = Ok (le_encode (Core.getByteLengthForType t) z).
Proof.
  intros Ht Hz. unfold Core.valueToBytes.
  destruct (decide (t = ebool)) as [|_]; [done|].
  rewrite Hz. cbn [mbind result_bind]. f_equal.
  rewrite valueToBytes_loop by (rewrite length_replicate; lia).
  reflexivity.
Qed.

Lemma le_encode_S (n : nat) (z : Z) :
  le_encode (S n) z = z mod 256 :: le_encode n (z / 256).
Proof.
  unfold le_encode. cbn [seq fmap list_fmap]. f_equal.
  - by rewrite Z.div_1_r.
  - rewrite <- seq_shift, <- list_fmap_compose.
    apply list_fmap_ext. intros _ j _. cbn.
    rewrite Z.div_div by lia. do 2 f_equal.
    rewrite Nat2Z.inj_succ, Z.pow_succ_r by lia. reflexivity.
Qed.

Lemma le_decode_encode (n : nat) :
  ∀ z, le_decode (le_encode n z) = z mod 256 ^ Z.of_nat n.
Proof.
  induction n as [|n IH]; intros z.
  - cbn. by rewrite Z.mod_1_r.
  - rewrite le_encode_S. cbn [le_decode foldr].
    fold (le_decode (le_encode n (z / 256))).
    rewrite (IH (z / 256)).
    rewrite Nat2Z.inj_succ, Z.pow_succ_r by lia.
    rewrite Z.rem_mul_r by lia. reflexivity.
Qed.

Lemma length_le_encode (n : nat) (z : Z) : length (le_encode n z) = n.
Proof. unfold le_encode. by rewrite length_fmap, length_seq. Qed.

Lemma le_encode_bytes (n : nat) (z : Z) :
  Forall (fun b => 0 ≤ b < 256) (le_encode n z).
Proof.
  unfold le_encode. apply Forall_fmap, Forall_forall. intros j _. cbn.
  apply Z.mod_pos_bound. lia.
Qed.

End BytePacking.

Section Hex.

Lemma string_app_assoc (s1 s2 s3 : string) :
  (s1 +:+ s2) +:+ s3 = s1 +:+ (s2 +:+ s3).
Proof.
  induction s1 as [|c s1 IH]; [done|].
  change (String c ((s1 +:+ s2) +:+ s3) = String c (s1 +:+ (s2 +:+ s3))).
  by rewrite IH.
Qed.

(** Two hexadecimal digits are read back as the byte they were made from. *)
Lemma unhex_byte (b : Z) (rest : string) (n : nat) :
  0 ≤ b < 256 →
  unhex (S n) (Core.padStart2 (Core.toString16 b) +:+ rest)
  = (tl ← unhex n rest; Some (b :: tl)).
Proof.
  intros Hb. rewrite <- (Z2Nat.id b) by lia.
  assert (Hk : (Z.to_nat b < 256)%nat) by lia.
  generalize dependent (Z.to_nat b). clear Hb. intros k Hk.
  do 256 (destruct k as [|k]; [reflexivity|]). lia.
Qed.

Lemma unhex_bytesHex (bytes : list Z) (tail : string) :
  Forall (fun b => 0 ≤ b < 256) bytes →
  unhex (length bytes)
    (foldr (fun b acc => Core.padStart2 (Core.toString16 b) +:+ acc) "" bytes
     +:+ tail)
  = Some bytes.
Proof.
  induction 1 as [|b bytes Hb _ IH]; [done|].
  cbn [foldr length]. rewrite string_app_assoc, unhex_byte by done.
  by rewrite IH.
Qed.

Lemma ciphertext_bytes_performEncryption (bytes : list Z) (t : FheType)
    (cfg : FhevmConfig) :
  Forall (fun b => 0 ≤ b < 256) bytes →
  length bytes = Core.getByteLengthForType t →
  ciphertext_bytes t (Core.performEncryption bytes t cfg) = Some bytes.
Proof.
  intros Hb Hlen. unfold Core.performEncryption, ciphertext_bytes.
  change ("0x" +:+ ?x) with (String "0" (String "x" x)). cbv iota.
  rewrite <- Hlen. by apply unhex_bytesHex.
Qed.

End Hex.

Section EncryptFacts.

Lemma validateInput_in_range (t : FheType) (bits : nat) (z : Z) (v : value) :
  uint_bits t = Some bits → in_range bits z → Core.toBigInt v = Ok z →
  Core.validateInput v t = Ok true.
Proof.
  unfold in_range. intros Ht Hz Hv. unfold Core.validateInput.
  destruct (decide (t = ebool)) as [->|_]; [done|].
  rewrite Hv. cbn [mbind result_bind].
  destruct t; simplify_eq/=; f_equal;
    try reflexivity; apply andb_true_iff; split; lia.
Qed.

(** Out-of-range values are refused for the four widths [validateInput]
    has a case for. *)
Lemma encrypt_small_uint_out_of_range (t : FheType) (bits : nat) (z : Z)
    (v : value) (cfg : FhevmConfig) :
  t ∈ [euint8; euint16; euint32; euint64] →
  uint_bits t = Some bits → ¬ in_range bits z → Core.toBigInt v = Ok z →
  Core.encrypt v t cfg
  = Throw (JsError ("Invalid input for type " +:+ FheType_tag t)).
Proof.
  unfold in_range. intros Ht Hb Hz Hv. unfold Core.encrypt, Core.validateInput.
  rewrite !elem_of_cons, elem_of_nil in Ht.
  destruct (decide (t = ebool)) as [->|_]; [intuition discriminate|].
  rewrite Hv. cbn [mbind result_bind].
  destruct t; try (exfalso; intuition discriminate); simplify_eq/=;
    match goal with
    | |- context [(0 <=? z) && (z <=? ?m)] =>
        destruct ((0 <=? z) && (z <=? m)) eqn:E;
          [apply andb_true_iff in E; lia | reflexivity]
    end.
Qed.

(** C1. For every declared unsigned-integer type [t] (of [bits] bits) and
    every integer [z] with [0 <= z < 2^bits], passed as a bigint or as an
    integer-valued number, [encrypt] succeeds; the bytes it serialises are
    the little-endian encoding of [z] on [bits/8] bytes, decoding them
    gives back [z], and they can be read back from the ciphertext. *)
Theorem encrypt_uint_roundtrip (t : FheType) (bits : nat) (z : Z) (v : value)
    (cfg : FhevmConfig) :
  uint_bits t = Some bits →
  in_range bits z →
  v = VBigInt z ∨ v = VNumber (Integral z) →
  ∃ bytes : list Z,
    Core.valueToBytes v t = Ok bytes
    ∧ Core.encrypt v t cfg
      = Ok {| ciphertext := Core.performEncryption bytes t cfg; ev_type := t |}
    ∧ length bytes = (bits / 8)%nat
    ∧ bytes = le_encode (bits / 8) z
    ∧ le_decode bytes = z
    ∧ ciphertext_bytes t (Core.performEncryption bytes t cfg) = Some bytes.
Proof.
  intros Ht Hz Hv.
  assert (Hbig : Core.toBigInt v = Ok z) by (by destruct Hv as [->| ->]).
  assert (Hne : t ≠ ebool) by (by intros ->).
  assert (Hlen : Core.getByteLengthForType t = (bits / 8)%nat)
    by (destruct t; by simplify_eq/=).
  assert (Hpow : 256 ^ Z.of_nat (bits / 8) = 2 ^ Z.of_nat bits)
    by (destruct t; by simplify_eq/=).
  pose proof (valueToBytes_le t v z Hne Hbig) as Hbytes.
  rewrite Hlen in Hbytes.
  exists (le_encode (bits / 8) z). split; [done|].
  split; [|split; [|split; [|split]]].
  - unfold Core.encrypt.
    rewrite (validateInput_in_range t bits z v) by done.
    cbn [mbind result_bind negb]. rewrite Hbytes. reflexivity.
  - apply length_le_encode.
  - reflexivity.
  - rewrite le_decode_encode, Hpow. apply Z.mod_small, Hz.
  - apply ciphertext_bytes_performEncryption; [apply le_encode_bytes|].
    by rewrite length_le_encode.
Qed.

Lemma encrypt_uint_roundtrip_witness :
  ∃ bytes : list Z,
    Core.valueToBytes (VBigInt 300) euint16 = Ok bytes
    ∧ Core.encrypt (VBigInt 300) euint16 cfg0
      = Ok {| ciphertext := Core.performEncryption bytes euint16 cfg0;
              ev_type := euint16 |}
    ∧ length bytes = (16 / 8)%nat
    ∧ bytes = le_encode (16 / 8) 300
    ∧ le_decode bytes = 300
    ∧ ciphertext_bytes euint16 (Core.performEncryption bytes euint16 cfg0)
      = Some bytes.
Proof.
  apply (encrypt_uint_roundtrip euint16 16 300 (VBigInt 300) cfg0).
  - reflexivity.
  - unfold in_range. lia.
  - left. reflexivity.
Defined.

Example encrypt_300 :
  Core.encrypt (VNumber (Integral 300)) euint16 cfg0
  = Ok {| ciphertext := "0x2c01euint16"; ev_type := euint16 |}.
Proof. reflexivity. Qed.

Example encrypt_256_euint8 :
  Core.encrypt (VBigInt 256) euint8 cfg0
  = Throw (JsError "Invalid input for type euint8").
Proof. reflexivity. Qed.

(** C2. [validateInput] has no case for [euint128] and [euint256]: a
    value of [2^128] is accepted for [euint128] and encrypted as the
    sixteen bytes of zero, and [-1] is accepted for [euint256] and
    encrypted as thirty-two bytes [0xff]; no validation error is raised. *)
Theorem encrypt_wide_uint_out_of_range_accepted :
  ¬ in_range 128 (2 ^ 128)
  ∧ Core.encrypt (VBigInt (2 ^ 128)) euint128 cfg0
    = Ok {| ciphertext := "0x00000000000000000000000000000000euint128";
            ev_type := euint128 |}
  ∧ ¬ in_range 256 (-1)
  ∧ Core.encrypt (VBigInt (-1)) euint256 cfg0
    = Ok {| ciphertext :=
              "0xffffffffffffffffffffffffffffffffffffffffffffffffffffffffffffffffeuint256";
            ev_type := euint256 |}.
Proof.
  split; [unfold in_range; lia|]. split; [by vm_compute|].
  split; [unfold in_range; lia|]. by vm_compute.
Qed.

End EncryptFacts.

(** * Properties of the client registry *)

Section RegistryFacts.
Import Registry.

(** With a ready singleton, [initFhevm] returns it before anything else
    happens: no object is created and the gateway is not contacted. *)
Lemma initFhevm_ready (fetch : Fetch) (cfg : FhevmConfig) (rt : Runtime)
    (r : ref) :
  readyInstance rt = Some r → initFhevm fetch cfg rt = (Ok r, rt).
Proof. intros Hr. unfold initFhevm. by rewrite Hr. Qed.

Lemma readyInstance_fresh (cfg : FhevmConfig) (h : list FhevmClient) :
  readyInstance
    {| heap := <[length h := {| config := cfg; isInitialized := true |}]>
                 (h ++ [{| config := cfg; isInitialized := false |}]);
       globalInstance := Some (length h) |}
  = Some (length h).
Proof.
  unfold readyInstance. cbn [globalInstance heap].
  rewrite list_lookup_insert_eq by (rewrite length_app; cbn; lia).
  reflexivity.
Qed.

Lemma initFhevm_success_ready (fetch : Fetch) (cfg : FhevmConfig)
    (rt rt1 : Runtime) (r : ref) :
  initFhevm fetch cfg rt = (Ok r, rt1) → readyInstance rt1 = Some r.
Proof.
  unfold initFhevm. destruct (readyInstance rt) as [r0|] eqn:Hr.
  - intros [= <- <-]. exact Hr.
  - destruct (testGatewayConnection fetch (gatewayUrl cfg)); [|done].
    intros [= <- <-]. apply readyInstance_fresh.
Qed.

Lemma testGatewayConnection_fails (fetch : Fetch) (url : string) :
  fetch (url +:+ "/health") ≠ Responds true →
  testGatewayConnection fetch url
  = Throw (JsError ("Cannot connect to Gateway at " +:+ url)).
Proof.
  intros Hf. unfold testGatewayConnection.
  destruct (fetch (url +:+ "/health")) as [[|]|e]; done.
Qed.

(** C7. A ready singleton is returned as it is, with the runtime
    unchanged; and after a successful [initFhevm] the returned client is
    the ready singleton, so that any further [initFhevm] returns the same
    reference and changes nothing. *)
Theorem initFhevm_idempotent (fetch : Fetch) (cfg : FhevmConfig)
    (rt : Runtime) :
  (∀ r, readyInstance rt = Some r → initFhevm fetch cfg rt = (Ok r, rt))
  ∧ (∀ r rt1,
       initFhevm fetch cfg rt = (Ok r, rt1) →
       getFhevmClient rt1 = Some r
       ∧ (∃ c, heap rt1 !! r = Some c ∧ isInitialized c = true)
       ∧ ∀ fetch' cfg', initFhevm fetch' cfg' rt1 = (Ok r, rt1)).
Proof.
  split; [intros r; apply initFhevm_ready|].
  intros r rt1 Hinit.
  pose proof (initFhevm_success_ready _ _ _ _ _ Hinit) as Hready.
  split; [|split].
  - unfold readyInstance in Hready. unfold getFhevmClient.
    destruct (globalInstance rt1) as [r1|]; [|done].
    destruct (heap rt1 !! r1) as [c|]; [|done].
    destruct (isInitialized c); by simplify_eq.
  - unfold readyInstance in Hready.
    destruct (globalInstance rt1) as [r1|]; [|done].
    destruct (heap rt1 !! r1) as [c|] eqn:Hc; [|done].
    destruct (isInitialized c) eqn:Hi; simplify_eq. by exists c.
  - intros fetch' cfg'. by apply initFhevm_ready.
Qed.

(** C10. If the health probe does not come back with an [ok] response,
    [initFhevm] leaves [getFhevmClient] as it was, leaves every existing
    client object as it was, and, when there was no ready singleton (so
    that the probe is made), rejects with the initialization error. *)
Theorem initFhevm_probe_failure (fetch : Fetch) (cfg : FhevmConfig)
    (rt : Runtime) :
  fetch (gatewayUrl cfg +:+ "/health") ≠ Responds true →
  (readyInstance rt = None →
   fst (initFhevm fetch cfg rt)
   = Throw (JsError ("Failed to initialize FHEVM SDK: "
                     +:+ "Error: Cannot connect to Gateway at "
                     +:+ gatewayUrl cfg)))
  ∧ getFhevmClient (snd (initFhevm fetch cfg rt)) = getFhevmClient rt
  ∧ (∀ r c, heap rt !! r = Some c →
            heap (snd (initFhevm fetch cfg rt)) !! r = Some c)
  ∧ readyInstance (snd (initFhevm fetch cfg rt)) = readyInstance rt.
Proof.
  intros Hf. unfold initFhevm.
  rewrite (testGatewayConnection_fails _ _ Hf).
  destruct (readyInstance rt) as [r0|] eqn:Hr.
  - cbn [fst snd]. by rewrite Hr.
  - cbn [fst snd heap globalInstance getFhevmClient].
    split; [done|]. split; [done|]. split.
    + intros r c Hc. by apply lookup_app_l_Some.
    + unfold readyInstance in *. cbn [heap globalInstance].
      destruct (globalInstance rt) as [r1|]; [|done].
      destruct (heap rt !! r1) as [c|] eqn:Hc.
      * by rewrite (lookup_app_l_Some _ _ _ _ Hc).
      * apply lookup_ge_None in Hc.
        destruct (decide (r1 = length (heap rt))) as [->|Hne].
        -- by rewrite list_lookup_middle.
        -- rewrite lookup_ge_None_2; [done|].
           rewrite length_app. cbn. lia.
Qed.

End RegistryFacts.

Section RegistryWitnesses.
Import Registry.

Lemma initFhevm_idempotent_witness :
  initFhevm (fun _ => Responds true) cfg0
    {| heap := []; globalInstance := None |}
  = (Ok 0%nat,
     {| heap := [{| config := cfg0; isInitialized := true |}];
        globalInstance := Some 0%nat |})
  ∧ initFhevm (fun _ => Rejects JsRangeError) cfg0
      {| heap := [{| config := cfg0; isInitialized := true |}];
         globalInstance := Some 0%nat |}
    = (Ok 0%nat,
       {| heap := [{| config := cfg0; isInitialized := true |}];
          globalInstance := Some 0%nat |}).
Proof.
  split; [reflexivity|].
  apply (proj2 (initFhevm_idempotent (fun _ => Responds true) cfg0
                  {| heap := []; globalInstance := None |})
           0%nat _ eq_refl).
Defined.

Lemma initFhevm_probe_failure_witness :
  fst (initFhevm (fun _ => Responds false) cfg0
         {| heap := []; globalInstance := None |})
  = Throw (JsError ("Failed to initialize FHEVM SDK: "
                    +:+ "Error: Cannot connect to Gateway at "
                    +:+ gatewayUrl cfg0))
  ∧ getFhevmClient
      (snd (initFhevm (fun _ => Responds false) cfg0
              {| heap := []; globalInstance := None |}))
    = None.
Proof.
  pose proof (initFhevm_probe_failure (fun _ => Responds false) cfg0
                {| heap := []; globalInstance := None |}) as H.
  destruct H as (Hthrow & Hget & _).
  - discriminate.
  - split; [apply Hthrow; reflexivity | exact Hget].
Defined.

End RegistryWitnesses.

(** * Properties of the React adapter *)

Section ReactFacts.
Import React.

(** Under a provider, the hook reads what the nearest provider
    published. *)
Lemma useFhevmContext_inside (c : option Registry.ref)
    (initialized initializing : bool) (err : option exn)
    (outer : list (option FhevmContextValue)) :
  useFhevmContext (FhevmProvider_value c initialized initializing err :: outer)
  = Ok {| client := c; isInitialized := initialized;
          isInitializing := initializing; error := err |}.
Proof. reflexivity. Qed.

Lemma useFhevm_inside (c : option Registry.ref)
    (initialized initializing : bool) (err : option exn)
    (outer : list (option FhevmContextValue)) :
  useFhevm (FhevmProvider_value c initialized initializing err :: outer)
  = Ok {| ret_client := c; ret_isInitialized := initialized;
          ret_isInitializing := initializing; ret_error := err |}.
Proof. reflexivity. Qed.

(** C8. With no enclosing provider, [useContext] gives the default value
    handed to [createContext], an object, so the guard [!context] does not
    fire: [useFhevmContext] and [useFhevm] return the default status
    instead of throwing. *)
Theorem useFhevm_outside_provider_returns_default :
  useFhevmContext []
  = Ok {| client := None; isInitialized := false;
          isInitializing := false; error := None |}
  ∧ useFhevm []
    = Ok {| ret_client := None; ret_isInitialized := false;
            ret_isInitializing := false; ret_error := None |}.
Proof. split; reflexivity. Qed.

End ReactFacts.

(** * Properties of the matching contract *)

Section ContractFacts.
Import Contract.
Local Open Scope N_scope.

Ltac unfold_calls :=
  unfold succeeds, transact, body, createListing, createRequest, createMatch,
    confirmMatch, deactivateListing, cancelRequest, pause, unpause,
    addPauser, removePauser, update_match, onlyOwner, whenNotPaused,
    increment, mbind, M_bind, mret, M_ret, gets, require, revert, panic,
    modify, emit in *.

(** Case split on the outermost conditions, one after the other. *)
Ltac split_ifs :=
  repeat (match goal with
          | |- context [if ?b then _ else _] => destruct b eqn:?
          end; cbn beta iota).

Lemma run_app (s : State) (txs1 txs2 : list Tx) :
  run s (txs1 ++ txs2) = run (run s txs1) txs2.
Proof.
  revert s. induction txs1 as [|[env c] txs1 IH]; intros s; [done|].
  cbn. apply IH.
Qed.

Lemma mined_app (s : State) (txs1 txs2 : list Tx) :
  mined s (txs1 ++ txs2) = mined s txs1 ++ mined (run s txs1) txs2.
Proof.
  revert s. induction txs1 as [|[env c] txs1 IH]; intros s; [done|].
  cbn. rewrite IH. by destruct (succeeds env c s).
Qed.

(** Projections of updated storage. *)
Ltac storage :=
  cbn [fst snd
       owner listingIdCounter requestIdCounter matchCounter kmsGeneration
       pauserAddresses isPaused isPauserAddress decryptionRequestCounter
       listings requests matches userListings userRequests
       set_listingIdCounter set_requestIdCounter set_matchCounter
       set_pauserAddresses set_isPaused set_isPauserAddress set_listings
       set_requests set_matches set_userListings set_userRequests] in *.

Ltac records :=
  cbn [from_option Datatypes.id
       l_isActive l_landlord l_timestamp l_isMatched set_l_isActive
       set_l_isMatched r_isActive r_tenant r_timestamp r_isMatched
       set_r_isActive set_r_isMatched
       m_listingId m_requestId m_landlord m_tenant m_timestamp isConfirmed
       landlordConfirmed tenantConfirmed set_isConfirmed
       set_landlordConfirmed set_tenantConfirmed zeroListing zeroRequest
       zeroMatch] in *.

Ltac unfold_at :=
  unfold listingExists, requestExists, matchExists, listingAt, requestAt,
    matchAt in *.

(** Look up a mapping that was written at one key. *)
Ltac lookup_written id k :=
  let Heq := fresh "Heq" in
  destruct (decide (k = id)) as [Heq|?];
  [rewrite ?Heq in *; rewrite ?lookup_insert_eq
  | rewrite ?lookup_insert_ne by done].

Lemma wf_pausers (s : State) (v : gmap address bool) (w : list address) :
  wf s → wf (set_isPauserAddress v (set_pauserAddresses w s)).
Proof. intros []. split; storage; unfold_at; storage; done. Qed.

Lemma wf_deploy (env : Env) (pausers : list address) (kms : N) :
  wf (constructor env pausers kms).
Proof.
  unfold constructor.
  match goal with |- wf (foldl _ ?init _) => set (s0 := init) end.
  assert (Hwf : wf s0).
  { subst s0. split; storage; unfold_at; storage; try done; lia. }
  clearbody s0. revert s0 Hwf.
  induction pausers as [|a pausers IH]; intros s0 Hwf; [exact Hwf|].
  cbn [foldl]. apply IH. by apply wf_pausers.
Qed.

(** Membership in an explicit list. *)
Ltac in_list := rewrite !elem_of_cons; tauto.

Ltac wf_fields Hwf :=
  destruct Hwf as [Hc Hl Hr Hm Hcf Hs Hn];
  split; storage; unfold_at; storage; try done.

(** Every transaction keeps the storage well formed. *)
Lemma wf_step (env : Env) (c : Call) (s : State) :
  wf s → wf (fst (transact env c s)).
Proof.
  intros Hwf. destruct c; unfold_calls; split_ifs; storage; try done;
    wf_fields Hwf.
  (* createListing *)
  1: lia.
  1: intros id Hid; rewrite lookup_insert_ne by lia; apply Hl; lia.
  (* createRequest *)
  1: lia.
  1: intros id Hid; rewrite lookup_insert_ne by lia; apply Hr; lia.
  (* createMatch *)
  1: lia.
  1: intros id Hid; lookup_written id _listingId; [|by apply Hl];
     rewrite (Hl _ Hid) in *; done.
  1: intros id Hid; lookup_written id _requestId; [|by apply Hr];
     rewrite (Hr _ Hid) in *; done.
  1: intros id Hid; rewrite lookup_insert_ne by lia; apply Hm; lia.
  1: intros id; lookup_written id (matchCounter s); [done|apply Hcf].
  1: intros id; lookup_written id (matchCounter s); [done|apply Hs].
  1: intros id; lookup_written id (matchCounter s); [done|apply Hn].
  (* confirmMatch and the rest *)
  all: try (intros id Hid; lookup_written id _matchId;
            [rewrite (Hm _ Hid) in *; done | by apply Hm]).
  all: rewrite ?lookup_insert_eq in *; records.
  all: intros id; try (lookup_written id _matchId; records).
  all: try apply Hcf; try apply Hs; try apply Hn.
  all: try (specialize (Hcf id); specialize (Hs id); specialize (Hn id);
            destruct (default zeroMatch (matches s !! id)) as [? ? ? ? ? [] [] []];
            records; repeat case_bool_decide; simplify_eq/=;
            try done; intuition congruence).
  - intros Hid. lookup_written id _listingId; [|by apply Hl].
    rewrite (Hl _ Hid) in *. done.
  - intros Hid. lookup_written id _requestId; [|by apply Hr].
    rewrite (Hr _ Hid) in *. done.
Qed.

Lemma wf_run (s : State) (txs : list Tx) : wf s → wf (run s txs).
Proof.
  revert s. induction txs as [|[env c] txs IH]; intros s Hwf; [done|].
  cbn. by apply IH, wf_step.
Qed.

Lemma wf_reachable (s : State) : reachable s → wf s.
Proof. induction 1; [apply wf_deploy | by apply wf_step]. Qed.

Lemma reachable_run (s : State) (txs : list Tx) :
  reachable s → reachable (run s txs).
Proof.
  revert s. induction txs as [|[env c] txs IH]; intros s Hs; [done|].
  cbn. apply IH. by constructor.
Qed.

(** ** Pausing *)

Lemma views_ignore_pause (s : State) (b : bool) (u : address) :
  getUserListings (set_isPaused b s) u = getUserListings s u
  ∧ getUserRequests (set_isPaused b s) u = getUserRequests s u
  ∧ getActiveListingsCount (set_isPaused b s) = getActiveListingsCount s
  ∧ getActiveRequestsCount (set_isPaused b s) = getActiveRequestsCount s.
Proof. done. Qed.

(** The modelled [pause] and [unpause] set and clear the flag. *)
Lemma pause_sets_flag (s : State) (env : Env) :
  succeeds env Pause s = true → isPaused (fst (transact env Pause s)) = true.
Proof. unfold_calls. split_ifs; done. Qed.

Lemma unpause_clears_flag (s : State) (env : Env) :
  succeeds env Unpause s = true →
  isPaused (fst (transact env Unpause s)) = false.
Proof. unfold_calls. split_ifs; done. Qed.

(** C6. For each of [createListing], [createRequest] and [createMatch]:
    while the pause flag is set the call fails with the pause reason and
    the storage is unchanged; while it is clear the call never fails with
    the pause reason. The four read-only queries return the same whatever
    the pause flag is. *)
Theorem pause_gates_creation (s : State) (env : Env) (c : Call) :
  creation_call c = true →
  (isPaused s = true →
   transact env c s = (s, Reverted (RevertWith "Contract is paused")))
  ∧ (isPaused s = false →
     snd (transact env c s) ≠ Reverted (RevertWith "Contract is paused"))
  ∧ (∀ b u,
       getUserListings (set_isPaused b s) u = getUserListings s u
       ∧ getUserRequests (set_isPaused b s) u = getUserRequests s u
       ∧ getActiveListingsCount (set_isPaused b s) = getActiveListingsCount s
       ∧ getActiveRequestsCount (set_isPaused b s)
         = getActiveRequestsCount s).
Proof.
  intros Hc. split; [|split]; [| |intros b u; apply views_ignore_pause].
  - intros Hp. destruct c; try discriminate Hc; unfold_calls;
      rewrite Hp; reflexivity.
  - intros Hp. destruct c; try discriminate Hc; unfold_calls;
      rewrite Hp; cbn [negb]; split_ifs; cbn [snd]; discriminate.
Qed.

(** ** Argument checks of [createListing] and [createRequest] *)

(** C9. A bedroom count of 0 or above 10, or a property type outside
    1..3, makes [createListing] and [createRequest] revert (with the
    reason of the first failing check), leaving the storage as it was. *)
Theorem invalid_bedrooms_or_type_rejected (s : State) (env : Env)
    (p b z t : N) :
  b = 0 ∨ 10 < b ∨ t < 1 ∨ 3 < t →
  (∃ reason,
     reason ∈ ["Contract is paused"; "Price must be greater than 0";
               "Invalid bedroom count"; "Invalid property type"]
     ∧ transact env (CreateListing p b z t) s
       = (s, Reverted (RevertWith reason)))
  ∧ (∃ reason,
       reason ∈ ["Contract is paused"; "Budget must be greater than 0";
                 "Invalid bedroom count"; "Invalid property type"]
       ∧ transact env (CreateRequest p b z t) s
         = (s, Reverted (RevertWith reason))).
Proof.
  intros Hbad.
  assert (Hcheck : (0 <? b) && (b <=? 10) = false
                   ∨ (1 <=? t) && (t <=? 3) = false).
  { destruct (decide (b = 0 ∨ 10 < b)).
    - left. rewrite andb_false_iff, N.ltb_ge, N.leb_gt. lia.
    - right. rewrite andb_false_iff, !N.leb_gt. lia. }
  split; unfold_calls.
  - destruct (negb (isPaused s));
      [|eexists; split; [|reflexivity]; in_list].
    destruct (0 <? p); [|eexists; split; [|reflexivity]; in_list].
    destruct ((0 <? b) && (b <=? 10)) eqn:Hb;
      [|eexists; split; [|reflexivity]; in_list].
    destruct Hcheck as [?| ->]; [done|].
    eexists; split; [|reflexivity]; in_list.
  - destruct (negb (isPaused s));
      [|eexists; split; [|reflexivity]; in_list].
    destruct (0 <? p); [|eexists; split; [|reflexivity]; in_list].
    destruct ((0 <? b) && (b <=? 10)) eqn:Hb;
      [|eexists; split; [|reflexivity]; in_list].
    destruct Hcheck as [?| ->]; [done|].
    eexists; split; [|reflexivity]; in_list.
Qed.

(** With the pause flag clear and a positive price, the reason is that of
    the bedroom or of the type check. *)
Lemma createListing_bad_bedrooms (s : State) (env : Env) (p b z t : N) :
  isPaused s = false → 0 < p → b = 0 ∨ 10 < b →
  transact env (CreateListing p b z t) s
  = (s, Reverted (RevertWith "Invalid bedroom count")).
Proof.
  intros Hp Hprice Hb. unfold_calls. rewrite Hp. cbn [negb].
  replace (0 <? p) with true by (symmetry; apply N.ltb_lt; lia).
  replace ((0 <? b) && (b <=? 10)) with false; [done|].
  symmetry. rewrite andb_false_iff, N.ltb_ge, N.leb_gt. lia.
Qed.

(** ** Creating a match *)

Lemma active_listing_exists (s : State) (l : N) :
  wf s → l_isActive (listingAt s l) = true → listingExists s l.
Proof.
  intros Hwf Ha. destruct (decide (listingExists s l)) as [|Hn]; [done|].
  unfold listingAt in Ha. by rewrite (wf_listings s Hwf l Hn) in Ha.
Qed.

Lemma active_request_exists (s : State) (r : N) :
  wf s → r_isActive (requestAt s r) = true → requestExists s r.
Proof.
  intros Hwf Ha. destruct (decide (requestExists s r)) as [|Hn]; [done|].
  unfold requestAt in Ha. by rewrite (wf_requests s Hwf r Hn) in Ha.
Qed.

Lemma createMatch_success (s : State) (env : Env) (l r : N) :
  isPaused s = false →
  l_isActive (listingAt s l) = true → r_isActive (requestAt s r) = true →
  l_isMatched (listingAt s l) = false → r_isMatched (requestAt s r) = false →
  match_authorized s env l r → matchCounter s < uint256_max →
  transact env (CreateMatch l r) s
  = (set_matchCounter (matchCounter s + 1)
       (set_requests (<[r := set_r_isMatched true (requestAt s r)]> (requests s))
          (set_listings
             (<[l := set_l_isMatched true (listingAt s l)]> (listings s))
             (set_matches
                (<[matchCounter s :=
                     {| m_listingId := l; m_requestId := r;
                        m_landlord := l_landlord (listingAt s l);
                        m_tenant := r_tenant (requestAt s r);
                        m_timestamp := timestamp env;
                        isConfirmed := false; landlordConfirmed := false;
                        tenantConfirmed := false |}]> (matches s)) s))),
     Mined [MatchCreated (matchCounter s) l r]).
Proof.
  intros Hp Hla Hra Hlm Hrm Hauth Hcnt. unfold_calls.
  split_ifs; first [reflexivity | exfalso].
  all: rewrite ?Hp, ?Hla, ?Hra, ?Hlm, ?Hrm in *; try done.
  - match goal with H : (_ <? _) = false |- _ => apply N.ltb_ge in H end. lia.
  - match goal with
    | H : _ || _ = false |- _ =>
        apply orb_false_iff in H; rewrite !bool_decide_eq_false in H
    end.
    unfold match_authorized in Hauth. tauto.
Qed.

(** From the checks of [createMatch] that passed to what they mean. *)
Ltac passed_checks s l r Hwf :=
  repeat match goal with
         | H : negb _ = true |- _ => apply negb_true_iff in H
         | H : _ || _ = true |- _ =>
             apply orb_true_iff in H; rewrite !bool_decide_eq_true in H
         | H : (_ <? _) = true |- _ => apply N.ltb_lt in H
         end;
  assert (listingExists s l) by (by apply active_listing_exists);
  assert (requestExists s r) by (by apply active_request_exists);
  unfold match_authorized, match_eligible.

Lemma createMatch_conditions (s : State) (env : Env) (l r : N) :
  wf s → succeeds env (CreateMatch l r) s = true →
  isPaused s = false ∧ match_authorized s env l r ∧ match_eligible s l r
  ∧ matchCounter s < uint256_max.
Proof.
  intros Hwf. unfold_calls. split_ifs; try done. intros _.
  passed_checks s l r Hwf. tauto.
Qed.

(** C5. In a reachable state, [createMatch] is mined exactly when the
    contract is not paused, the caller owns the listing or the request,
    both records exist, are active and unmatched (and the match counter
    has not reached its maximum). When mined it sets both matched flags to
    true in the one transaction and leaves every other field of the two
    records as it was, stores the match, touches no other listing or
    request, and emits [MatchCreated]. When the caller is not authorized or
    a record is missing, inactive or already matched, it reverts with a
    reason string and the storage is unchanged. *)
Theorem createMatch_spec (s : State) (env : Env) (l r : N) :
  reachable s →
  (succeeds env (CreateMatch l r) s = true ↔
   isPaused s = false ∧ match_authorized s env l r ∧ match_eligible s l r
   ∧ matchCounter s < uint256_max)
  ∧ (succeeds env (CreateMatch l r) s = true →
     ∃ s',
       transact env (CreateMatch l r) s
       = (s', Mined [MatchCreated (matchCounter s) l r])
       ∧ l_isMatched (listingAt s' l) = true
       ∧ r_isMatched (requestAt s' r) = true
       ∧ listingAt s' l
         = {| encryptedPrice := encryptedPrice (listingAt s l);
              encryptedBedrooms := encryptedBedrooms (listingAt s l);
              encryptedPostalCode := encryptedPostalCode (listingAt s l);
              encryptedPropertyType := encryptedPropertyType (listingAt s l);
              l_isActive := l_isActive (listingAt s l);
              l_landlord := l_landlord (listingAt s l);
              l_timestamp := l_timestamp (listingAt s l);
              l_isMatched := true |}
       ∧ requestAt s' r
         = {| encryptedMaxBudget := encryptedMaxBudget (requestAt s r);
              encryptedMinBedrooms := encryptedMinBedrooms (requestAt s r);
              encryptedPreferredPostalCode :=
                encryptedPreferredPostalCode (requestAt s r);
              encryptedPreferredPropertyType :=
                encryptedPreferredPropertyType (requestAt s r);
              r_isActive := r_isActive (requestAt s r);
              r_tenant := r_tenant (requestAt s r);
              r_timestamp := r_timestamp (requestAt s r);
              r_isMatched := true |}
       ∧ (∀ l', l' ≠ l → listingAt s' l' = listingAt s l')
       ∧ (∀ r', r' ≠ r → requestAt s' r' = requestAt s r')
       ∧ matchAt s' (matchCounter s)
         = {| m_listingId := l; m_requestId := r;
              m_landlord := l_landlord (listingAt s l);
              m_tenant := r_tenant (requestAt s r);
              m_timestamp := timestamp env;
              isConfirmed := false; landlordConfirmed := false;
              tenantConfirmed := false |}
       ∧ matchCounter s' = matchCounter s + 1)
  ∧ (¬ (match_authorized s env l r ∧ match_eligible s l r) →
     ∃ reason,
       reason ∈ ["Contract is paused"; "Listing not active";
                 "Request not active"; "Listing already matched";
                 "Request already matched";
                 "Not authorized to create this match"]
       ∧ transact env (CreateMatch l r) s
         = (s, Reverted (RevertWith reason))).
Proof.
  intros Hreach. pose proof (wf_reachable s Hreach) as Hwf.
  split; [|split].
  - split; [by apply createMatch_conditions|].
    intros (Hp & Hauth & (_ & _ & Hla & Hra & Hlm & Hrm) & Hcnt).
    unfold succeeds. by rewrite createMatch_success.
  - intros Hok.
    destruct (createMatch_conditions s env l r Hwf Hok)
      as (Hp & Hauth & (_ & _ & Hla & Hra & Hlm & Hrm) & Hcnt).
    eexists. split; [by apply createMatch_success|].
    storage. unfold_at. storage.
    rewrite !lookup_insert_eq. records.
    repeat split; try done.
    + intros l' Hl'. by rewrite lookup_insert_ne.
    + intros r' Hr'. by rewrite lookup_insert_ne.
  - intros Hnot. unfold_calls. split_ifs;
      try (eexists; split; [|reflexivity]; in_list).
    all: exfalso; apply Hnot; passed_checks s l r Hwf; tauto.
Qed.

(** ** Matched flags *)

Lemma listing_matched_step (s : State) (env : Env) (c : Call) (id : N) :
  wf s → l_isMatched (listingAt s id) = true →
  l_isMatched (listingAt (fst (transact env c s)) id) = true.
Proof.
  intros Hwf Hid. pose proof (wf_listings s Hwf) as Hl.
  pose proof (wf_counters s Hwf) as Hc.
  destruct c; unfold_calls; split_ifs; storage; try done;
    unfold_at; storage.
  - (* createListing writes a fresh id *)
    lookup_written id (listingIdCounter s); [|done].
    rewrite Hl in Hid by lia. done.
  - (* createMatch sets the flag *)
    lookup_written id _listingId; done.
  - (* deactivateListing keeps the flag *)
    lookup_written id _listingId; done.
Qed.

Lemma request_matched_step (s : State) (env : Env) (c : Call) (id : N) :
  wf s → r_isMatched (requestAt s id) = true →
  r_isMatched (requestAt (fst (transact env c s)) id) = true.
Proof.
  intros Hwf Hid. pose proof (wf_requests s Hwf) as Hr.
  pose proof (wf_counters s Hwf) as Hc.
  destruct c; unfold_calls; split_ifs; storage; try done;
    unfold_at; storage.
  - lookup_written id (requestIdCounter s); [|done].
    rewrite Hr in Hid by lia. done.
  - lookup_written id _requestId; done.
  - lookup_written id _requestId; done.
Qed.

Lemma listing_matched_run (s : State) (txs : list Tx) (id : N) :
  wf s → l_isMatched (listingAt s id) = true →
  l_isMatched (listingAt (run s txs) id) = true.
Proof.
  revert s. induction txs as [|[env c] txs IH]; intros s Hwf Hid; [done|].
  cbn. apply IH; [by apply wf_step | by apply listing_matched_step].
Qed.

Lemma request_matched_run (s : State) (txs : list Tx) (id : N) :
  wf s → r_isMatched (requestAt s id) = true →
  r_isMatched (requestAt (run s txs) id) = true.
Proof.
  revert s. induction txs as [|[env c] txs IH]; intros s Hwf Hid; [done|].
  cbn. apply IH; [by apply wf_step | by apply request_matched_step].
Qed.

Lemma createMatch_matched_listing (s : State) (env : Env) (l r : N) :
  l_isMatched (listingAt s l) = true →
  succeeds env (CreateMatch l r) s = false.
Proof. intros Hl. unfold_calls. split_ifs; try done. by rewrite Hl in *. Qed.

Lemma createMatch_matched_request (s : State) (env : Env) (l r : N) :
  r_isMatched (requestAt s r) = true →
  succeeds env (CreateMatch l r) s = false.
Proof. intros Hr. unfold_calls. split_ifs; try done. by rewrite Hr in *. Qed.

Lemma createMatch_sets_flags (s : State) (env : Env) (l r : N) :
  succeeds env (CreateMatch l r) s = true →
  l_isMatched (listingAt (fst (transact env (CreateMatch l r) s)) l) = true
  ∧ r_isMatched (requestAt (fst (transact env (CreateMatch l r) s)) r) = true.
Proof.
  unfold_calls. split_ifs; try done. intros _.
  storage. unfold_at. storage. by rewrite !lookup_insert_eq.
Qed.

(** C4. In a reachable state, no transaction takes a matched flag that is
    set back to false; and once [createMatch] has been mined for a listing
    and a request, then after any further transactions both are still
    matched and every [createMatch] naming that listing or that request
    fails. *)
Theorem matched_is_permanent (s : State) :
  reachable s →
  (∀ env c id,
     (l_isMatched (listingAt s id) = true →
      l_isMatched (listingAt (fst (transact env c s)) id) = true)
     ∧ (r_isMatched (requestAt s id) = true →
        r_isMatched (requestAt (fst (transact env c s)) id) = true))
  ∧ (∀ env l r txs,
       succeeds env (CreateMatch l r) s = true →
       l_isMatched
         (listingAt (run (fst (transact env (CreateMatch l r) s)) txs) l) = true
       ∧ r_isMatched
           (requestAt (run (fst (transact env (CreateMatch l r) s)) txs) r)
         = true
       ∧ ∀ env' l' r',
           succeeds env' (CreateMatch l r')
             (run (fst (transact env (CreateMatch l r) s)) txs) = false
           ∧ succeeds env' (CreateMatch l' r)
               (run (fst (transact env (CreateMatch l r) s)) txs) = false).
Proof.
  intros Hreach. pose proof (wf_reachable s Hreach) as Hwf. split.
  - intros env c id. split.
    + by apply listing_matched_step.
    + by apply request_matched_step.
  - intros env l r txs Hok.
    destruct (createMatch_sets_flags s env l r Hok) as [Hl Hr].
    pose proof (wf_step env (CreateMatch l r) s Hwf) as Hwf'.
    pose proof (listing_matched_run _ txs l Hwf' Hl) as Hl'.
    pose proof (request_matched_run _ txs r Hwf' Hr) as Hr'.
    split; [done|]. split; [done|]. intros env' l' r'. split.
    + by apply createMatch_matched_listing.
    + by apply createMatch_matched_request.
Qed.

(** ** Confirming a match *)

Lemma matches_deploy (env : Env) (pausers : list address) (kms : N) :
  matches (constructor env pausers kms) = ∅.
Proof.
  unfold constructor.
  match goal with |- matches (foldl _ ?init _) = _ => set (s0 := init) end.
  assert (Hs0 : matches s0 = ∅) by done.
  clearbody s0. revert s0 Hs0.
  induction pausers as [|a pausers IH]; intros s0 Hs0; [done|].
  cbn [foldl]. by apply IH.
Qed.

Lemma confirmations_snoc (s0 : State) (txs : list Tx) (env : Env) (c : Call)
    (m : N) (p : address) :
  confirmations s0 (txs ++ [(env, c)]) m p
  = (confirmations s0 txs m p
     + (if succeeds env c (run s0 txs)
           && bool_decide (sender env = p ∧ c = ConfirmMatch m)
        then 1 else 0))%nat.
Proof.
  unfold confirmations. rewrite mined_app, filter_app, length_app.
  f_equal. cbn [mined]. destruct (succeeds env c (run s0 txs)); [|done].
  cbn [andb]. rewrite filter_cons, filter_nil. cbn [fst snd].
  case_bool_decide; by rewrite decide_bool_decide; case_bool_decide.
Qed.

Lemma flag_count_step (s : State) (env : Env) (c : Call) (m : N)
    (p : address) :
  wf s →
  flag_count (matchAt (fst (transact env c s)) m) p
  = (flag_count (matchAt s m) p
     + (if succeeds env c s
           && bool_decide (sender env = p ∧ c = ConfirmMatch m)
        then 1 else 0))%nat.
Proof.
  intros Hwf.
  pose proof (wf_matches s Hwf) as Hm. pose proof (wf_counters s Hwf) as Hc.
  pose proof (wf_self s Hwf m) as Hs. pose proof (wf_nolandlord s Hwf m) as Hn.
  pose proof (wf_confirmed s Hwf m) as Hcf.
  destruct c;
    try (rewrite (bool_decide_eq_false_2 (sender env = p ∧ _ = ConfirmMatch m))
           by (intros [_ [=]]);
         rewrite andb_false_r, Nat.add_0_r;
         unfold_calls; split_ifs; storage; try done).
  - (* createMatch *)
    unfold_at. storage.
    lookup_written m (matchCounter s); [|done].
    rewrite Hm by lia. unfold flag_count. records.
    by repeat case_bool_decide.
  - (* confirmMatch *)
    destruct (decide (_matchId = m)) as [->|Hne].
    2:{ rewrite (bool_decide_eq_false_2 (sender env = p ∧ _ = ConfirmMatch m))
          by (intros [_ [=]]; done).
        rewrite andb_false_r, Nat.add_0_r.
        unfold_calls; split_ifs; storage; try done.
        all: unfold matchAt; storage; by rewrite !lookup_insert_ne. }
    rewrite (bool_decide_ext _ (sender env = p)) by tauto.
    unfold succeeds.
    destruct (transact env (ConfirmMatch m) s) as [s' rc] eqn:Htx.
    cbn [fst]. revert Htx. unfold_calls. unfold_at.
    split_ifs; intros [= <- <-]; storage; cbn [andb];
      rewrite ?Nat.add_0_r; try done.
    all: rewrite ?lookup_insert_eq in *; records.
    all: unfold flag_count.
    all: destruct (default zeroMatch (matches s !! m))
           as [ml mr la te ts cf lc tc]; records.
    all: repeat case_bool_decide; simplify_eq/=; try done.
    all: repeat match goal with
                | H : negb ?b = true |- _ => apply negb_true_iff in H
                end; by subst.
Qed.

(** The confirmations counted over the history are those the flags of
    the match record account for. *)
Lemma confirmations_flags (env0 : Env) (pausers : list address) (kms : N)
    (txs : list Tx) (m : N) (p : address) :
  confirmations (constructor env0 pausers kms) txs m p
  = flag_count (matchAt (run (constructor env0 pausers kms) txs) m) p.
Proof.
  induction txs as [|[env c] txs IH] using rev_ind.
  - cbn. unfold matchAt. rewrite matches_deploy, lookup_empty. done.
  - rewrite confirmations_snoc, IH, run_app. cbn [run].
    rewrite flag_count_step; [done|]. apply wf_run, wf_deploy.
Qed.

Lemma confirmed_step (s : State) (env : Env) (c : Call) (m : N) :
  wf s → isConfirmed (matchAt s m) = true →
  isConfirmed (matchAt (fst (transact env c s)) m) = true.
Proof.
  intros Hwf Hm. pose proof (wf_matches s Hwf) as Hnone.
  destruct c; unfold_calls; split_ifs; storage; try done;
    unfold_at; storage.
  1:{ (* createMatch writes a fresh id *)
      lookup_written m (matchCounter s); [|done].
      rewrite Hnone in Hm by lia. done. }
  all: lookup_written m _matchId; rewrite ?lookup_insert_ne by done;
    try done.
  all: by rewrite Hm in *.
Qed.

Lemma confirmed_run (s : State) (txs : list Tx) (m : N) :
  wf s → isConfirmed (matchAt s m) = true →
  isConfirmed (matchAt (run s txs) m) = true.
Proof.
  revert s. induction txs as [|[env c] txs IH]; intros s Hwf Hm; [done|].
  cbn. apply IH; [by apply wf_step | by apply confirmed_step].
Qed.

(** A party whose confirmation is recorded cannot confirm again. *)
Lemma confirmMatch_again_fails (s : State) (env : Env) (m : N) :
  wf s → (1 ≤ flag_count (matchAt s m) (sender env))%nat →
  succeeds env (ConfirmMatch m) s = false.
Proof.
  intros Hwf Hcount. pose proof (wf_confirmed s Hwf m) as Hcf.
  revert Hcount. unfold flag_count. unfold_calls. unfold_at.
  split_ifs; try done.
  all: repeat match goal with
              | H : negb ?b = true |- _ => apply negb_true_iff in H
              end.
  all: repeat case_bool_decide; simplify_eq/=; try done.
  all: repeat match goal with H : ?b = false |- _ => rewrite H end.
  all: cbn; lia.
Qed.

(** C3. After deployment and any transactions: a party with a mined
    confirmation of a match cannot confirm it again, and no party has more
    than one; a match whose landlord and tenant are distinct addresses is
    confirmed if and only if each of the two has confirmed exactly once;
    and a confirmed match stays confirmed whatever happens next. *)
Theorem confirmation_protocol (env0 : Env) (pausers : list address) (kms : N)
    (txs : list Tx) (s : State) (m : N) :
  s = run (constructor env0 pausers kms) txs →
  (∀ env,
     (1 ≤ confirmations (constructor env0 pausers kms) txs m (sender env))%nat →
     succeeds env (ConfirmMatch m) s = false)
  ∧ (∀ p, (confirmations (constructor env0 pausers kms) txs m p ≤ 1)%nat)
  ∧ (m_landlord (matchAt s m) ≠ m_tenant (matchAt s m) →
     (isConfirmed (matchAt s m) = true ↔
      confirmations (constructor env0 pausers kms) txs m
        (m_landlord (matchAt s m)) = 1%nat
      ∧ confirmations (constructor env0 pausers kms) txs m
          (m_tenant (matchAt s m)) = 1%nat))
  ∧ (isConfirmed (matchAt s m) = true →
     ∀ txs', isConfirmed (matchAt (run s txs') m) = true).
Proof.
  intros ->.
  assert (Hwf : wf (run (constructor env0 pausers kms) txs))
    by apply wf_run, wf_deploy.
  set (s := run (constructor env0 pausers kms) txs) in *.
  assert (Hcount : ∀ p, confirmations (constructor env0 pausers kms) txs m p
                        = flag_count (matchAt s m) p)
    by (intros p; apply confirmations_flags).
  split; [|split; [|split]].
  - intros env. rewrite Hcount. by apply confirmMatch_again_fails.
  - intros p. rewrite Hcount. unfold flag_count.
    repeat case_bool_decide; try lia.
    + destruct (landlordConfirmed (matchAt s m)); cbn; lia.
    + destruct (tenantConfirmed (matchAt s m)); cbn; lia.
  - intros Hdistinct. rewrite !Hcount.
    pose proof (wf_confirmed s Hwf m) as Hcf.
    pose proof (wf_nolandlord s Hwf m) as Hn.
    rewrite Hcf. unfold flag_count.
    destruct (matchAt s m) as [ml mr la te ts cf lc tc]. records.
    repeat case_bool_decide; simplify_eq/=.
    + destruct Hn as [-> ->]; [done|]. cbn. split; [done|lia].
    + destruct lc, tc; cbn; split; (done || lia || intros [? ?]; lia).
  - intros Hm txs'. by apply confirmed_run.
Qed.

(** Where one address is both landlord and tenant of a match, its
    confirmation sets the landlord flag only and the match is never
    confirmed. *)
Lemma self_match_never_confirmed (s : State) (m : N) :
  reachable s → m_landlord (matchAt s m) = m_tenant (matchAt s m) →
  isConfirmed (matchAt s m) = false.
Proof.
  intros Hreach Hsame. pose proof (wf_reachable s Hreach) as Hwf.
  rewrite (wf_confirmed s Hwf m), (wf_self s Hwf m Hsame).
  apply andb_false_r.
Qed.

(** ** The properties on concrete histories *)

Example end_to_end_confirmed :
  isConfirmed (matchAt (run deployed end_to_end) 1) = true.
Proof. by vm_compute. Qed.

Example self_match_state :
  m_landlord (matchAt (run deployed self_match) 1) = 10
  ∧ m_tenant (matchAt (run deployed self_match) 1) = 10
  ∧ landlordConfirmed (matchAt (run deployed self_match) 1) = true
  ∧ tenantConfirmed (matchAt (run deployed self_match) 1) = false
  ∧ isConfirmed (matchAt (run deployed self_match) 1) = false
  ∧ confirmations deployed self_match 1 10 = 1%nat.
Proof. by vm_compute. Qed.

(** The equivalence of C3 without the proviso fails on a self-match: the
    one address that is landlord and tenant has confirmed exactly once,
    and the match is not confirmed. *)
Lemma self_match_counterexample :
  ¬ (isConfirmed (matchAt (run deployed self_match) 1) = true ↔
     confirmations deployed self_match 1
       (m_landlord (matchAt (run deployed self_match) 1)) = 1%nat
     ∧ confirmations deployed self_match 1
         (m_tenant (matchAt (run deployed self_match) 1)) = 1%nat).
Proof.
  intros [_ Hiff].
  assert (Hc : isConfirmed (matchAt (run deployed self_match) 1) = true)
    by (apply Hiff; split; by vm_compute).
  by vm_compute in Hc.
Qed.

Lemma confirmation_protocol_witness :
  (isConfirmed (matchAt (run deployed end_to_end) 1) = true ↔
   confirmations deployed end_to_end 1
     (m_landlord (matchAt (run deployed end_to_end) 1)) = 1%nat
   ∧ confirmations deployed end_to_end 1
       (m_tenant (matchAt (run deployed end_to_end) 1)) = 1%nat)
  ∧ succeeds landlord (ConfirmMatch 1) (run deployed end_to_end) = false.
Proof.
  pose proof (confirmation_protocol deployer [2; 1; 1; 1] 1 end_to_end
                (run deployed end_to_end) 1 eq_refl) as (Hagain & _ & Hiff & _).
  split.
  - apply Hiff. vm_compute. lia.
  - apply Hagain. vm_compute. lia.
Defined.

Lemma matched_is_permanent_witness :
  l_isMatched
    (listingAt
       (run (fst (transact landlord (CreateMatch 1 1)
                    (run deployed listed_and_requested)))
            [(tenant, ConfirmMatch 1)]) 1) = true
  ∧ succeeds tenant (CreateMatch 1 1)
      (run (fst (transact landlord (CreateMatch 1 1)
                   (run deployed listed_and_requested)))
           [(tenant, ConfirmMatch 1)]) = false.
Proof.
  assert (Hreach : reachable (run deployed listed_and_requested))
    by apply reachable_run, reachable_deploy.
  pose proof (proj2 (matched_is_permanent _ Hreach) landlord 1 1
                [(tenant, ConfirmMatch 1)]) as H.
  destruct H as (Hl & _ & Hfail); [by vm_compute|].
  split; [exact Hl | apply (Hfail tenant 1 1)].
Defined.

Lemma createMatch_spec_witness :
  succeeds landlord (CreateMatch 1 1) (run deployed listed_and_requested)
  = true
  ∧ l_isMatched (listingAt (run deployed listed_and_requested) 1) = false
  ∧ r_isMatched (requestAt (run deployed listed_and_requested) 1) = false
  ∧ l_isMatched
      (listingAt
         (fst (transact landlord (CreateMatch 1 1)
                 (run deployed listed_and_requested))) 1) = true
  ∧ r_isMatched
      (requestAt
         (fst (transact landlord (CreateMatch 1 1)
                 (run deployed listed_and_requested))) 1) = true
  ∧ ∃ reason,
      transact deployer (CreateMatch 1 1) (run deployed listed_and_requested)
      = (run deployed listed_and_requested, Reverted (RevertWith reason)).
Proof.
  assert (Hreach : reachable (run deployed listed_and_requested))
    by apply reachable_run, reachable_deploy.
  assert (Hok : succeeds landlord (CreateMatch 1 1)
                  (run deployed listed_and_requested) = true).
  { apply (proj1 (createMatch_spec _ landlord 1 1 Hreach)).
    unfold match_authorized, match_eligible, listingExists, requestExists.
    split; [by vm_compute|]. split; [left; by vm_compute|].
    repeat split; by vm_compute. }
  split; [exact Hok|]. split; [by vm_compute|]. split; [by vm_compute|].
  destruct (proj1 (proj2 (createMatch_spec _ landlord 1 1 Hreach)) Hok)
    as (s' & Htx & Hl & Hr & _).
  rewrite Htx. split; [exact Hl|]. split; [exact Hr|].
  destruct (proj2 (proj2 (createMatch_spec _ deployer 1 1 Hreach)))
    as (reason & _ & Hrev).
  - intros [[Ha|Ha] _]; by vm_compute in Ha.
  - by exists reason.
Defined.

Lemma pause_gates_creation_witness :
  transact landlord (CreateListing 2000 2 12345 1)
    (run deployed [(pauser, Pause)])
  = (run deployed [(pauser, Pause)],
     Reverted (RevertWith "Contract is paused")).
Proof.
  apply (proj1 (pause_gates_creation (run deployed [(pauser, Pause)])
                  landlord (CreateListing 2000 2 12345 1) eq_refl)).
  by vm_compute.
Defined.

Lemma invalid_bedrooms_or_type_rejected_witness :
  ∃ reason,
    reason ∈ ["Contract is paused"; "Price must be greater than 0";
              "Invalid bedroom count"; "Invalid property type"]
    ∧ transact landlord (CreateListing 2000 255 12345 1) deployed
      = (deployed, Reverted (RevertWith reason)).
Proof.
  apply (proj1 (invalid_bedrooms_or_type_rejected deployed landlord
                  2000 255 12345 1 (or_intror (or_introl eq_refl)))).
Defined.

(** * Further properties of the matching contract *)

(** From the outcome of boolean checks to propositions. *)
Ltac bool_to_prop :=
  repeat match goal with
         | H : negb _ = true |- _ => apply negb_true_iff in H
         | H : negb _ = false |- _ => apply negb_false_iff in H
         | H : _ && _ = true |- _ => apply andb_true_iff in H; destruct H
         | H : _ && _ = false |- _ => apply andb_false_iff in H; destruct H
         | H : _ || _ = false |- _ => apply orb_false_iff in H; destruct H
         | H : bool_decide _ = true |- _ => apply bool_decide_eq_true in H
         | H : bool_decide _ = false |- _ => apply bool_decide_eq_false in H
         | H : (_ <? _) = true |- _ => apply N.ltb_lt in H
         | H : (_ <? _) = false |- _ => apply N.ltb_ge in H
         | H : (_ <=? _) = true |- _ => apply N.leb_le in H
         | H : (_ <=? _) = false |- _ => apply N.leb_gt in H
         end.

(** X18. For arguments that fit their declared types ([uint32] for the
    price and the postal code, [uint8] for the bedroom count and the
    type), [createListing] is mined exactly when the contract is not
    paused, the price is positive, the bedroom count is in 1..10 and the
    type in 1..3 (and the counter is below its maximum); the postal code
    is not checked. It then stores, under the next id, an active,
    unmatched listing owned by the caller, appends the id to the caller's
    list, advances the counter by one, emits [ListingCreated], and leaves
    every other listing, every other user's list, the requests and the
    matches as they were. *)
Theorem createListing_spec (s : State) (env : Env) (p b z t : N) :
  p < 2 ^ 32 → b < 2 ^ 8 → z < 2 ^ 32 → t < 2 ^ 8 →
  (succeeds env (CreateListing p b z t) s = true ↔
   isPaused s = false ∧ 0 < p ∧ 1 ≤ b ≤ 10 ∧ 1 ≤ t ≤ 3
   ∧ listingIdCounter s < uint256_max)
  ∧ (succeeds env (CreateListing p b z t) s = true →
     ∃ s',
       transact env (CreateListing p b z t) s
       = (s', Mined [ListingCreated (listingIdCounter s) (sender env)])
       ∧ listingAt s' (listingIdCounter s)
         = {| encryptedPrice := Some p; encryptedBedrooms := Some b;
              encryptedPostalCode := Some z; encryptedPropertyType := Some t;
              l_isActive := true; l_landlord := sender env;
              l_timestamp := timestamp env; l_isMatched := false |}
       ∧ (∀ id, id ≠ listingIdCounter s → listingAt s' id = listingAt s id)
       ∧ listingIdCounter s' = listingIdCounter s + 1
       ∧ getUserListings s' (sender env)
         = getUserListings s (sender env) ++ [listingIdCounter s]
       ∧ (∀ u, u ≠ sender env → getUserListings s' u = getUserListings s u)
       ∧ requests s' = requests s ∧ matches s' = matches s
       ∧ userRequests s' = userRequests s).
Proof.
  intros _ _ _ _. split.
  - unfold_calls. split_ifs; bool_to_prop;
      (split; [try done; intros _ | intros (? & ? & ? & ? & ?); try done]).
    all: try (exfalso; congruence); try lia.
    all: try (destruct (isPaused s); done).
    all: intuition lia.
  - unfold_calls. split_ifs; try done. intros _.
    eexists. split; [reflexivity|]. storage.
    unfold getUserListings, userListingsAt, listingAt. storage.
    rewrite !lookup_insert_eq. cbn.
    repeat split; try done.
    + intros id Hid. by rewrite lookup_insert_ne.
    + intros u Hu. by rewrite lookup_insert_ne.
Qed.

(** X19. For arguments that fit their declared types ([uint32] for the
    budget and the postal code, [uint8] for the bedroom count and the
    type), [createRequest] is mined exactly when the contract is not
    paused, the budget is positive, the minimum bedroom count is in 1..10
    and the type in 1..3 (and the counter is below its maximum). It then
    stores, under the next id, an active, unmatched request owned by the
    caller, appends the id to the caller's list, advances the counter,
    emits [RequestCreated], and leaves every other request, the listings
    and the matches as they were. *)
Theorem createRequest_spec (s : State) (env : Env) (p b z t : N) :
  p < 2 ^ 32 → b < 2 ^ 8 → z < 2 ^ 32 → t < 2 ^ 8 →
  (succeeds env (CreateRequest p b z t) s = true ↔
   isPaused s = false ∧ 0 < p ∧ 1 ≤ b ≤ 10 ∧ 1 ≤ t ≤ 3
   ∧ requestIdCounter s < uint256_max)
  ∧ (succeeds env (CreateRequest p b z t) s = true →
     ∃ s',
       transact env (CreateRequest p b z t) s
       = (s', Mined [RequestCreated (requestIdCounter s) (sender env)])
       ∧ requestAt s' (requestIdCounter s)
         = {| encryptedMaxBudget := Some p; encryptedMinBedrooms := Some b;
              encryptedPreferredPostalCode := Some z;
              encryptedPreferredPropertyType := Some t;
              r_isActive := true; r_tenant := sender env;
              r_timestamp := timestamp env; r_isMatched := false |}
       ∧ (∀ id, id ≠ requestIdCounter s → requestAt s' id = requestAt s id)
       ∧ requestIdCounter s' = requestIdCounter s + 1
       ∧ getUserRequests s' (sender env)
         = getUserRequests s (sender env) ++ [requestIdCounter s]
       ∧ (∀ u, u ≠ sender env → getUserRequests s' u = getUserRequests s u)
       ∧ listings s' = listings s ∧ matches s' = matches s
       ∧ userListings s' = userListings s).
Proof.
  intros _ _ _ _. split.
  - unfold_calls. split_ifs; bool_to_prop;
      (split; [try done; intros _ | intros (? & ? & ? & ? & ?); try done]).
    all: try (exfalso; congruence); try lia.
    all: try (destruct (isPaused s); done).
    all: intuition lia.
  - unfold_calls. split_ifs; try done. intros _.
    eexists. split; [reflexivity|]. storage.
    unfold getUserRequests, userRequestsAt, requestAt. storage.
    rewrite !lookup_insert_eq. cbn.
    repeat split; try done.
    + intros id Hid. by rewrite lookup_insert_ne.
    + intros u Hu. by rewrite lookup_insert_ne.
Qed.

(** X20. [confirmMatch] is mined exactly when the contract is not
    paused, the match exists and is not yet confirmed, and the caller is
    its landlord with the landlord flag clear, or (not being the landlord)
    its tenant with the tenant flag clear; nobody else can confirm. It
    then sets the caller's flag to true, leaves the other party's flag as
    it was, makes the match confirmed exactly when the other flag was
    already set, emits [MatchConfirmed], and changes nothing else. *)
Theorem confirmMatch_spec (s : State) (env : Env) (m : N) :
  (succeeds env (ConfirmMatch m) s = true ↔
   isPaused s = false
   ∧ m_landlord (matchAt s m) ≠ address0
   ∧ isConfirmed (matchAt s m) = false
   ∧ ((sender env = m_landlord (matchAt s m)
       ∧ landlordConfirmed (matchAt s m) = false)
      ∨ (sender env ≠ m_landlord (matchAt s m)
         ∧ sender env = m_tenant (matchAt s m)
         ∧ tenantConfirmed (matchAt s m) = false)))
  ∧ (succeeds env (ConfirmMatch m) s = true →
     ∃ s',
       transact env (ConfirmMatch m) s
       = (s', Mined [MatchConfirmed m (sender env)])
       ∧ (sender env = m_landlord (matchAt s m) →
          landlordConfirmed (matchAt s' m) = true
          ∧ tenantConfirmed (matchAt s' m) = tenantConfirmed (matchAt s m)
          ∧ isConfirmed (matchAt s' m) = tenantConfirmed (matchAt s m))
       ∧ (sender env ≠ m_landlord (matchAt s m) →
          tenantConfirmed (matchAt s' m) = true
          ∧ landlordConfirmed (matchAt s' m)
            = landlordConfirmed (matchAt s m)
          ∧ isConfirmed (matchAt s' m) = landlordConfirmed (matchAt s m))
       ∧ (isConfirmed (matchAt s' m) = true ↔
          landlordConfirmed (matchAt s' m) = true
          ∧ tenantConfirmed (matchAt s' m) = true)
       ∧ m_listingId (matchAt s' m) = m_listingId (matchAt s m)
       ∧ m_requestId (matchAt s' m) = m_requestId (matchAt s m)
       ∧ m_landlord (matchAt s' m) = m_landlord (matchAt s m)
       ∧ m_tenant (matchAt s' m) = m_tenant (matchAt s m)
       ∧ m_timestamp (matchAt s' m) = m_timestamp (matchAt s m)
       ∧ (∀ m', m' ≠ m → matchAt s' m' = matchAt s m')
       ∧ listings s' = listings s ∧ requests s' = requests s
       ∧ matchCounter s' = matchCounter s).
Proof.
  split.
  - unfold_calls. unfold matchAt.
    split_ifs; rewrite ?lookup_insert_eq in *; records; bool_to_prop;
      (split; [try done; intros _ | intros (? & ? & ? & Hwho); try done]).
    all: try (exfalso; congruence).
    all: try (destruct (isPaused s); done).
    all: try (destruct Hwho as [[? ?]|(? & ? & ?)]; congruence).
    all: intuition congruence.
  - unfold_calls. unfold matchAt.
    split_ifs; try done; intros _.
    all: eexists; split; [reflexivity|]; storage.
    all: rewrite ?lookup_insert_eq in *; records; bool_to_prop.
    all: destruct (default zeroMatch (matches s !! m))
           as [? ? ? ? ? cf lc tc] eqn:Hm; records; subst.
    all: repeat split; try done; try congruence;
      try (intros m' Hm'; by rewrite !lookup_insert_ne).
    all: by intros [? ?].
Qed.

Lemma register_pausers (pausers : list address) :
  ∀ s0 : State,
    let s := foldl (fun s a =>
                      set_isPauserAddress (<[a := true]> (isPauserAddress s))
                        (set_pauserAddresses (pauserAddresses s ++ [a]) s))
                   s0 pausers in
    s = set_isPauserAddress (isPauserAddress s)
          (set_pauserAddresses (pauserAddresses s) s0)
    ∧ pauserAddresses s = pauserAddresses s0 ++ pausers
    ∧ ∀ a, isPauser s a = true ↔ isPauser s0 a = true ∨ a ∈ pausers.
Proof.
  induction pausers as [|p pausers IH]; intros s0; cbn [foldl].
  - split; [by destruct s0|]. split; [by rewrite app_nil_r|].
    intros a. rewrite elem_of_nil. tauto.
  - destruct (IH (set_isPauserAddress (<[p := true]> (isPauserAddress s0))
                    (set_pauserAddresses (pauserAddresses s0 ++ [p]) s0)))
      as (Heq & Hlist & Hmem).
    split; [|split].
    + rewrite Heq at 1. done.
    + rewrite Hlist. storage. by rewrite <- app_assoc.
    + intros a. rewrite Hmem, elem_of_cons. unfold isPauser. storage.
      destruct (decide (p = a)) as [->|Hne].
      * rewrite lookup_insert_eq. cbn. tauto.
      * rewrite lookup_insert_ne by done.
        split; [intros [?|?]; tauto | intros [?|[?|?]]; try tauto].
        congruence.
Qed.

(** X21. The constructor makes the deployer the owner, starts the three
    id counters at 1 with the contract not paused and nothing stored, and
    registers exactly the given addresses as pausers, in the given order
    (repetitions are kept in the list). *)
Theorem constructor_spec (env : Env) (pausers : list address) (kms : N) :
  owner (constructor env pausers kms) = sender env
  ∧ listingIdCounter (constructor env pausers kms) = 1
  ∧ requestIdCounter (constructor env pausers kms) = 1
  ∧ matchCounter (constructor env pausers kms) = 1
  ∧ kmsGeneration (constructor env pausers kms) = kms
  ∧ isPaused (constructor env pausers kms) = false
  ∧ pauserAddresses (constructor env pausers kms) = pausers
  ∧ (∀ a, isPauser (constructor env pausers kms) a = true ↔ a ∈ pausers)
  ∧ listings (constructor env pausers kms) = ∅
  ∧ requests (constructor env pausers kms) = ∅
  ∧ matches (constructor env pausers kms) = ∅
  ∧ (∀ u, getUserListings (constructor env pausers kms) u = []
          ∧ getUserRequests (constructor env pausers kms) u = [])
  ∧ getActiveListingsCount (constructor env pausers kms) = 0
  ∧ getActiveRequestsCount (constructor env pausers kms) = 0.
Proof.
  unfold constructor.
  match goal with |- context [foldl ?f ?init pausers] =>
    pose proof (register_pausers pausers init) as H;
    set (s := foldl f init pausers) in *
  end.
  cbn zeta in H. destruct H as (Heq & Hlist & Hmem). clearbody s.
  unfold getUserListings, getUserRequests, userListingsAt, userRequestsAt,
    getActiveListingsCount, getActiveRequestsCount.
  cbn [pauserAddresses app] in Hlist.
  assert (Hmem' : ∀ a, isPauser s a = true ↔ a ∈ pausers).
  { intros a. rewrite Hmem. unfold isPauser. storage.
    rewrite lookup_empty. cbn. intuition discriminate. }
  repeat split; try (rewrite Heq; storage; done); try done.
  all: by apply Hmem'.
Qed.

(** ** What a record keeps for good *)

Lemma listing_terms_step (s : State) (env : Env) (c : Call) (id : N) :
  wf s → listingExists s id →
  listingExists (fst (transact env c s)) id
  ∧ set_l_isActive true (set_l_isMatched true
      (listingAt (fst (transact env c s)) id))
    = set_l_isActive true (set_l_isMatched true (listingAt s id)).
Proof.
  intros Hwf Hid. pose proof (wf_counters s Hwf) as Hc.
  destruct c; unfold_calls; split_ifs; storage; try done;
    unfold_at; storage.
  - split; [lia|]. by rewrite lookup_insert_ne by lia.
  - split; [done|]. lookup_written id _listingId; [|done].
    by destruct (default zeroListing (listings s !! id)).
  - split; [done|]. lookup_written id _listingId; [|done].
    by destruct (default zeroListing (listings s !! id)).
Qed.

Lemma request_terms_step (s : State) (env : Env) (c : Call) (id : N) :
  wf s → requestExists s id →
  requestExists (fst (transact env c s)) id
  ∧ set_r_isActive true (set_r_isMatched true
      (requestAt (fst (transact env c s)) id))
    = set_r_isActive true (set_r_isMatched true (requestAt s id)).
Proof.
  intros Hwf Hid. pose proof (wf_counters s Hwf) as Hc.
  destruct c; unfold_calls; split_ifs; storage; try done;
    unfold_at; storage.
  - split; [lia|]. by rewrite lookup_insert_ne by lia.
  - split; [done|]. lookup_written id _requestId; [|done].
    by destruct (default zeroRequest (requests s !! id)).
  - split; [done|]. lookup_written id _requestId; [|done].
    by destruct (default zeroRequest (requests s !! id)).
Qed.

Lemma listing_terms_run (s : State) (txs : list Tx) (id : N) :
  wf s → listingExists s id →
  listingExists (run s txs) id
  ∧ set_l_isActive true (set_l_isMatched true (listingAt (run s txs) id))
    = set_l_isActive true (set_l_isMatched true (listingAt s id)).
Proof.
  revert s. induction txs as [|[env c] txs IH]; intros s Hwf Hid; [done|].
  cbn [run].
  destruct (listing_terms_step s env c id Hwf Hid) as [Hex Heq].
  destruct (IH _ (wf_step env c s Hwf) Hex) as [Hex' Heq'].
  split; [done|]. by rewrite Heq'.
Qed.

Lemma request_terms_run (s : State) (txs : list Tx) (id : N) :
  wf s → requestExists s id →
  requestExists (run s txs) id
  ∧ set_r_isActive true (set_r_isMatched true (requestAt (run s txs) id))
    = set_r_isActive true (set_r_isMatched true (requestAt s id)).
Proof.
  revert s. induction txs as [|[env c] txs IH]; intros s Hwf Hid; [done|].
  cbn [run].
  destruct (request_terms_step s env c id Hwf Hid) as [Hex Heq].
  destruct (IH _ (wf_step env c s Hwf) Hex) as [Hex' Heq'].
  split; [done|]. by rewrite Heq'.
Qed.

(** X22. In a reachable state, a listing that exists keeps existing, and
    nothing but its active and matched flags can ever change: price,
    bedrooms, postal code, type, landlord and creation time stay what they
    were when it was created, whatever transactions follow. *)
Theorem listing_terms_immutable (s : State) (txs : list Tx) (id : N) :
  reachable s → listingExists s id →
  listingExists (run s txs) id
  ∧ encryptedPrice (listingAt (run s txs) id)
    = encryptedPrice (listingAt s id)
  ∧ encryptedBedrooms (listingAt (run s txs) id)
    = encryptedBedrooms (listingAt s id)
  ∧ encryptedPostalCode (listingAt (run s txs) id)
    = encryptedPostalCode (listingAt s id)
  ∧ encryptedPropertyType (listingAt (run s txs) id)
    = encryptedPropertyType (listingAt s id)
  ∧ l_landlord (listingAt (run s txs) id) = l_landlord (listingAt s id)
  ∧ l_timestamp (listingAt (run s txs) id) = l_timestamp (listingAt s id).
Proof.
  intros Hreach Hid.
  destruct (listing_terms_run s txs id (wf_reachable s Hreach) Hid)
    as [Hex Heq].
  split; [done|].
  destruct (listingAt (run s txs) id), (listingAt s id).
  by injection Heq as -> -> -> -> -> ->.
Qed.

(** X23. The same for a request: budget, minimum bedrooms, postal code,
    type, tenant and creation time never change once it exists. *)
Theorem request_terms_immutable (s : State) (txs : list Tx) (id : N) :
  reachable s → requestExists s id →
  requestExists (run s txs) id
  ∧ encryptedMaxBudget (requestAt (run s txs) id)
    = encryptedMaxBudget (requestAt s id)
  ∧ encryptedMinBedrooms (requestAt (run s txs) id)
    = encryptedMinBedrooms (requestAt s id)
  ∧ encryptedPreferredPostalCode (requestAt (run s txs) id)
    = encryptedPreferredPostalCode (requestAt s id)
  ∧ encryptedPreferredPropertyType (requestAt (run s txs) id)
    = encryptedPreferredPropertyType (requestAt s id)
  ∧ r_tenant (requestAt (run s txs) id) = r_tenant (requestAt s id)
  ∧ r_timestamp (requestAt (run s txs) id) = r_timestamp (requestAt s id).
Proof.
  intros Hreach Hid.
  destruct (request_terms_run s txs id (wf_reachable s Hreach) Hid)
    as [Hex Heq].
  split; [done|].
  destruct (requestAt (run s txs) id), (requestAt s id).
  by injection Heq as -> -> -> -> -> ->.
Qed.

(** ** The per-user lists and the active counts *)

Lemma elem_of_ids_below (id c : N) : id ∈ ids_below c ↔ 1 ≤ id ∧ id < c.
Proof.
  unfold ids_below. rewrite list_elem_of_fmap. split.
  - intros (n & -> & Hn). apply elem_of_seq in Hn. lia.
  - intros [H1 H2]. exists (N.to_nat id). split; [lia|].
    apply elem_of_seq. lia.
Qed.

Lemma ids_below_succ (c : N) : 1 ≤ c → ids_below (c + 1) = ids_below c ++ [c].
Proof.
  intros Hc. unfold ids_below.
  replace (N.to_nat (c + 1) - 1)%nat with (S (N.to_nat c - 1)) by lia.
  rewrite seq_S, fmap_app. cbn. do 2 f_equal. lia.
Qed.

Lemma NoDup_ids_below (c : N) : NoDup (ids_below c).
Proof.
  unfold ids_below. apply NoDup_fmap_2_strong; [|apply NoDup_seq].
  intros x y _ _ Hxy. lia.
Qed.

Lemma filter_ext_elem {A} (P Q : A → Prop) `{!∀ x, Decision (P x)}
    `{!∀ x, Decision (Q x)} (l : list A) :
  (∀ x, x ∈ l → (P x ↔ Q x)) → filter P l = filter Q l.
Proof.
  induction l as [|a l IH]; intros Hext; [done|].
  rewrite !filter_cons.
  rewrite IH by (intros x Hx; apply Hext; by right).
  destruct (decide (P a)) as [Hp|Hp], (decide (Q a)) as [Hq|Hq]; try done.
  - destruct Hq. apply Hext; [by left | done].
  - destruct Hp. apply Hext; [by left | done].
Qed.

Lemma constructor_shape (env : Env) (pausers : list address) (kms : N) :
  ∃ (pa : gmap address bool) (pl : list address),
    constructor env pausers kms
    = set_isPauserAddress pa
        (set_pauserAddresses pl
           {| owner := sender env; listingIdCounter := 1;
              requestIdCounter := 1; matchCounter := 1;
              kmsGeneration := kms; pauserAddresses := [];
              isPaused := false; isPauserAddress := ∅;
              decryptionRequestCounter := 0;
              listings := ∅; requests := ∅; matches := ∅;
              userListings := ∅; userRequests := ∅ |}).
Proof.
  unfold constructor.
  match goal with |- context [foldl _ ?init pausers] =>
    destruct (register_pausers pausers init) as (Heq & _)
  end.
  cbn zeta in Heq. eauto.
Qed.

(** How a transaction can change the listing counter and the per-user
    lists: not at all, or as a mined [createListing] does. *)
Lemma user_listings_step (s : State) (env : Env) (c : Call) :
  (listingIdCounter (fst (transact env c s)) = listingIdCounter s
   ∧ ∀ u, getUserListings (fst (transact env c s)) u = getUserListings s u)
  ∨ (listingIdCounter (fst (transact env c s)) = listingIdCounter s + 1
     ∧ l_landlord (listingAt (fst (transact env c s)) (listingIdCounter s))
       = sender env
     ∧ getUserListings (fst (transact env c s)) (sender env)
       = getUserListings s (sender env) ++ [listingIdCounter s]
     ∧ ∀ u, u ≠ sender env →
            getUserListings (fst (transact env c s)) u = getUserListings s u).
Proof.
  destruct c; unfold_calls; split_ifs; storage; try (by left).
  right. unfold getUserListings, userListingsAt, listingAt. storage.
  rewrite !lookup_insert_eq. cbn. repeat split; try done.
  intros u Hu. by rewrite lookup_insert_ne.
Qed.

Lemma user_requests_step (s : State) (env : Env) (c : Call) :
  (requestIdCounter (fst (transact env c s)) = requestIdCounter s
   ∧ ∀ u, getUserRequests (fst (transact env c s)) u = getUserRequests s u)
  ∨ (requestIdCounter (fst (transact env c s)) = requestIdCounter s + 1
     ∧ r_tenant (requestAt (fst (transact env c s)) (requestIdCounter s))
       = sender env
     ∧ getUserRequests (fst (transact env c s)) (sender env)
       = getUserRequests s (sender env) ++ [requestIdCounter s]
     ∧ ∀ u, u ≠ sender env →
            getUserRequests (fst (transact env c s)) u = getUserRequests s u).
Proof.
  destruct c; unfold_calls; split_ifs; storage; try (by left).
  right. unfold getUserRequests, userRequestsAt, requestAt. storage.
  rewrite !lookup_insert_eq. cbn. repeat split; try done.
  intros u Hu. by rewrite lookup_insert_ne.
Qed.

Lemma landlord_step (s : State) (env : Env) (c : Call) (id : N) :
  wf s → listingExists s id →
  l_landlord (listingAt (fst (transact env c s)) id)
  = l_landlord (listingAt s id).
Proof.
  intros Hwf Hid.
  destruct (listing_terms_step s env c id Hwf Hid) as [_ Heq].
  destruct (listingAt (fst (transact env c s)) id), (listingAt s id).
  by injection Heq as -> -> -> -> -> ->.
Qed.

Lemma tenant_step (s : State) (env : Env) (c : Call) (id : N) :
  wf s → requestExists s id →
  r_tenant (requestAt (fst (transact env c s)) id) = r_tenant (requestAt s id).
Proof.
  intros Hwf Hid.
  destruct (request_terms_step s env c id Hwf Hid) as [_ Heq].
  destruct (requestAt (fst (transact env c s)) id), (requestAt s id).
  by injection Heq as -> -> -> -> -> ->.
Qed.

(** X24. In every reachable state, [getUserListings(u)] is exactly the
    list, in increasing order and without repetition, of the ids of the
    listings whose landlord is [u]; and [getUserRequests(u)] that of the
    requests whose tenant is [u]. *)
Theorem user_lists_exact (s : State) (u : address) :
  reachable s →
  getUserListings s u
  = filter (fun id => l_landlord (listingAt s id) = u)
      (ids_below (listingIdCounter s))
  ∧ getUserRequests s u
    = filter (fun id => r_tenant (requestAt s id) = u)
        (ids_below (requestIdCounter s)).
Proof.
  intros Hreach. revert u. induction Hreach as [env pausers kms|s env c Hs IH].
  - intros u. destruct (constructor_shape env pausers kms) as (pa & pl & ->).
    done.
  - pose proof (wf_reachable s Hs) as Hwf.
    pose proof (wf_counters s Hwf) as (Hc1 & Hc2 & _).
    intros u. split.
    + destruct (user_listings_step s env c) as [[Hcnt Hu]|(Hcnt & Hl & Hme & Hu)].
      * rewrite Hcnt, Hu, (proj1 (IH u)). apply filter_ext_elem.
        intros id Hid%elem_of_ids_below.
        by rewrite landlord_step.
      * rewrite Hcnt, ids_below_succ, filter_app by done.
        rewrite (filter_ext_elem
                   (fun id => l_landlord
                                (listingAt (fst (transact env c s)) id) = u)
                   (fun id => l_landlord (listingAt s id) = u)
                   (ids_below (listingIdCounter s))).
        2:{ intros id Hid%elem_of_ids_below. by rewrite landlord_step. }
        rewrite filter_cons, filter_nil, Hl.
        destruct (decide (sender env = u)) as [<-|Hne].
        -- by rewrite Hme, (proj1 (IH (sender env))).
        -- rewrite Hu by done. by rewrite app_nil_r, (proj1 (IH u)).
    + destruct (user_requests_step s env c) as [[Hcnt Hu]|(Hcnt & Hl & Hme & Hu)].
      * rewrite Hcnt, Hu, (proj2 (IH u)). apply filter_ext_elem.
        intros id Hid%elem_of_ids_below.
        by rewrite tenant_step.
      * rewrite Hcnt, ids_below_succ, filter_app by done.
        rewrite (filter_ext_elem
                   (fun id => r_tenant
                                (requestAt (fst (transact env c s)) id) = u)
                   (fun id => r_tenant (requestAt s id) = u)
                   (ids_below (requestIdCounter s))).
        2:{ intros id Hid%elem_of_ids_below. by rewrite tenant_step. }
        rewrite filter_cons, filter_nil, Hl.
        destruct (decide (sender env = u)) as [<-|Hne].
        -- by rewrite Hme, (proj2 (IH (sender env))).
        -- rewrite Hu by done. by rewrite app_nil_r, (proj2 (IH u)).
Qed.

Lemma count_foldl {A} (P : A → Prop) `{!∀ x, Decision (P x)} (f : A → bool)
    (l : list A) :
  (∀ x, f x = true ↔ P x) →
  ∀ acc : N,
    foldl (fun count i => if f i then count + 1 else count) acc l
    = acc + N.of_nat (length (filter P l)).
Proof.
  intros Hf. induction l as [|a l IH]; intros acc; cbn [foldl].
  - rewrite filter_nil. cbn. lia.
  - rewrite IH, filter_cons. destruct (f a) eqn:Ha.
    + rewrite decide_True by (by apply Hf). cbn [length]. lia.
    + rewrite decide_False; [done|]. rewrite <- Hf. congruence.
Qed.

Lemma active_listings_count (s : State) :
  getActiveListingsCount s
  = N.of_nat (length (filter (fun i => l_isActive (listingAt s i) = true
                                       ∧ l_isMatched (listingAt s i) = false)
                             (ids_below (listingIdCounter s)))).
Proof.
  unfold getActiveListingsCount.
  rewrite (count_foldl (fun i => l_isActive (listingAt s i) = true
                                 ∧ l_isMatched (listingAt s i) = false));
    [done|].
  intros i. rewrite andb_true_iff, negb_true_iff. done.
Qed.

Lemma active_requests_count (s : State) :
  getActiveRequestsCount s
  = N.of_nat (length (filter (fun i => r_isActive (requestAt s i) = true
                                       ∧ r_isMatched (requestAt s i) = false)
                             (ids_below (requestIdCounter s)))).
Proof.
  unfold getActiveRequestsCount.
  rewrite (count_foldl (fun i => r_isActive (requestAt s i) = true
                                 ∧ r_isMatched (requestAt s i) = false));
    [done|].
  intros i. rewrite andb_true_iff, negb_true_iff. done.
Qed.

(** Taking one element out of what a filter keeps. *)
Lemma filter_drop_one {A} (P Q : A → Prop) `{!∀ x, Decision (P x)}
    `{!∀ x, Decision (Q x)} (l : list A) (x : A) :
  NoDup l → x ∈ l → P x → ¬ Q x →
  (∀ y, y ∈ l → y ≠ x → (P y ↔ Q y)) →
  length (filter P l) = S (length (filter Q l)).
Proof.
  intros Hnd. induction Hnd as [|a l Ha Hnd IH]; intros Hx HP HQ Hext.
  - by apply elem_of_nil in Hx.
  - rewrite !filter_cons. apply elem_of_cons in Hx as [->|Hx].
    + rewrite decide_True, decide_False by done. cbn [length]. f_equal.
      f_equal. apply filter_ext_elem. intros y Hy. apply Hext; [by right|].
      intros ->. done.
    + assert (a ≠ x) by (intros ->; done).
      assert (Hrec : length (filter P l) = S (length (filter Q l))).
      { apply IH; [done..|]. intros y Hy. apply Hext. by right. }
      destruct (decide (P a)) as [Hp|Hp], (decide (Q a)) as [Hq|Hq];
        cbn [length]; rewrite ?Hrec; try done.
      * destruct Hq. apply Hext; [by left|done|done].
      * destruct Hp. apply Hext; [by left|done|done].
Qed.

Lemma createListing_post (s : State) (env : Env) (p b z t : N) :
  succeeds env (CreateListing p b z t) s = true →
  listingIdCounter (fst (transact env (CreateListing p b z t) s))
  = listingIdCounter s + 1
  ∧ l_isActive (listingAt (fst (transact env (CreateListing p b z t) s))
                  (listingIdCounter s)) = true
  ∧ l_isMatched (listingAt (fst (transact env (CreateListing p b z t) s))
                   (listingIdCounter s)) = false
  ∧ ∀ id, id ≠ listingIdCounter s →
          listingAt (fst (transact env (CreateListing p b z t) s)) id
          = listingAt s id.
Proof.
  unfold_calls. split_ifs; try done. intros _. storage.
  unfold listingAt. storage. rewrite !lookup_insert_eq.
  repeat split; try done. intros id Hid. by rewrite lookup_insert_ne.
Qed.

Lemma createRequest_post (s : State) (env : Env) (p b z t : N) :
  succeeds env (CreateRequest p b z t) s = true →
  requestIdCounter (fst (transact env (CreateRequest p b z t) s))
  = requestIdCounter s + 1
  ∧ r_isActive (requestAt (fst (transact env (CreateRequest p b z t) s))
                  (requestIdCounter s)) = true
  ∧ r_isMatched (requestAt (fst (transact env (CreateRequest p b z t) s))
                   (requestIdCounter s)) = false
  ∧ ∀ id, id ≠ requestIdCounter s →
          requestAt (fst (transact env (CreateRequest p b z t) s)) id
          = requestAt s id.
Proof.
  unfold_calls. split_ifs; try done. intros _. storage.
  unfold requestAt. storage. rewrite !lookup_insert_eq.
  repeat split; try done. intros id Hid. by rewrite lookup_insert_ne.
Qed.

Lemma createMatch_post (s : State) (env : Env) (l r : N) :
  succeeds env (CreateMatch l r) s = true →
  listingIdCounter (fst (transact env (CreateMatch l r) s))
  = listingIdCounter s
  ∧ requestIdCounter (fst (transact env (CreateMatch l r) s))
    = requestIdCounter s
  ∧ matchCounter (fst (transact env (CreateMatch l r) s)) = matchCounter s + 1
  ∧ listingAt (fst (transact env (CreateMatch l r) s)) l
    = set_l_isMatched true (listingAt s l)
  ∧ requestAt (fst (transact env (CreateMatch l r) s)) r
    = set_r_isMatched true (requestAt s r)
  ∧ (∀ l', l' ≠ l →
           listingAt (fst (transact env (CreateMatch l r) s)) l'
           = listingAt s l')
  ∧ (∀ r', r' ≠ r →
           requestAt (fst (transact env (CreateMatch l r) s)) r'
           = requestAt s r')
  ∧ matchAt (fst (transact env (CreateMatch l r) s)) (matchCounter s)
    = {| m_listingId := l; m_requestId := r;
         m_landlord := l_landlord (listingAt s l);
         m_tenant := r_tenant (requestAt s r);
         m_timestamp := timestamp env;
         isConfirmed := false; landlordConfirmed := false;
         tenantConfirmed := false |}
  ∧ (∀ m, m ≠ matchCounter s →
          matchAt (fst (transact env (CreateMatch l r) s)) m = matchAt s m).
Proof.
  unfold_calls. split_ifs; try done. intros _. storage.
  unfold listingAt, requestAt, matchAt. storage. rewrite !lookup_insert_eq.
  repeat split; try done; intros x Hx; by rewrite lookup_insert_ne.
Qed.

(** X25. The active counts follow the transactions: a mined
    [createListing] raises the count of active listings by one, a mined
    [createRequest] that of active requests, and a mined [createMatch]
    lowers both by one. Neither count exceeds the number of ids handed
    out. *)
Theorem active_counts (s : State) (env : Env) :
  reachable s →
  (∀ p b z t,
     succeeds env (CreateListing p b z t) s = true →
     getActiveListingsCount (fst (transact env (CreateListing p b z t) s))
     = getActiveListingsCount s + 1)
  ∧ (∀ p b z t,
       succeeds env (CreateRequest p b z t) s = true →
       getActiveRequestsCount (fst (transact env (CreateRequest p b z t) s))
       = getActiveRequestsCount s + 1)
  ∧ (∀ l r,
       succeeds env (CreateMatch l r) s = true →
       getActiveListingsCount (fst (transact env (CreateMatch l r) s)) + 1
       = getActiveListingsCount s
       ∧ getActiveRequestsCount (fst (transact env (CreateMatch l r) s)) + 1
         = getActiveRequestsCount s)
  ∧ getActiveListingsCount s ≤ listingIdCounter s - 1
  ∧ getActiveRequestsCount s ≤ requestIdCounter s - 1.
Proof.
  intros Hreach. pose proof (wf_reachable s Hreach) as Hwf.
  pose proof (wf_counters s Hwf) as (Hc1 & Hc2 & _).
  rewrite !active_listings_count, !active_requests_count.
  split; [|split; [|split; [|split]]].
  - intros p b z t Hok.
    destruct (createListing_post s env p b z t Hok) as (Hcnt & Ha & Hm & Hrest).
    rewrite active_listings_count, Hcnt.
    rewrite ids_below_succ, filter_app, length_app by done.
    rewrite filter_cons, filter_nil, decide_True by done. cbn [length].
    rewrite (filter_ext_elem _
               (fun i => l_isActive (listingAt s i) = true
                         ∧ l_isMatched (listingAt s i) = false)); [lia|].
    intros id Hid%elem_of_ids_below. rewrite Hrest by lia. done.
  - intros p b z t Hok.
    destruct (createRequest_post s env p b z t Hok) as (Hcnt & Ha & Hm & Hrest).
    rewrite active_requests_count, Hcnt.
    rewrite ids_below_succ, filter_app, length_app by done.
    rewrite filter_cons, filter_nil, decide_True by done. cbn [length].
    rewrite (filter_ext_elem _
               (fun i => r_isActive (requestAt s i) = true
                         ∧ r_isMatched (requestAt s i) = false)); [lia|].
    intros id Hid%elem_of_ids_below. rewrite Hrest by lia. done.
  - intros l r Hok.
    destruct (createMatch_conditions s env l r Hwf Hok)
      as (Hp & Hauth & (Hle & Hre & Hla & Hra & Hlm & Hrm) & Hcnt).
    destruct (createMatch_post s env l r Hok)
      as (Hlc & Hrc & _ & Hl' & Hr' & Hlo & Hro & _).
    rewrite active_listings_count, active_requests_count, Hlc, Hrc.
    split.
    + rewrite (filter_drop_one
                 (fun i => l_isActive (listingAt s i) = true
                           ∧ l_isMatched (listingAt s i) = false)
                 (fun i =>
                    l_isActive
                      (listingAt (fst (transact env (CreateMatch l r) s)) i)
                    = true
                    ∧ l_isMatched
                        (listingAt (fst (transact env (CreateMatch l r) s)) i)
                      = false)
                 (ids_below (listingIdCounter s)) l); [lia|..].
      * apply NoDup_ids_below.
      * by apply elem_of_ids_below.
      * done.
      * rewrite Hl'. cbn. intros [_ ?]. done.
      * intros y _ Hy. by rewrite Hlo.
    + rewrite (filter_drop_one
                 (fun i => r_isActive (requestAt s i) = true
                           ∧ r_isMatched (requestAt s i) = false)
                 (fun i =>
                    r_isActive
                      (requestAt (fst (transact env (CreateMatch l r) s)) i)
                    = true
                    ∧ r_isMatched
                        (requestAt (fst (transact env (CreateMatch l r) s)) i)
                      = false)
                 (ids_below (requestIdCounter s)) r); [lia|..].
      * apply NoDup_ids_below.
      * by apply elem_of_ids_below.
      * done.
      * rewrite Hr'. cbn. intros [_ ?]. done.
      * intros y _ Hy. by rewrite Hro.
  - pose proof (length_filter
                  (fun i => l_isActive (listingAt s i) = true
                            ∧ l_isMatched (listingAt s i) = false)
                  (ids_below (listingIdCounter s))) as Hlen.
    unfold ids_below in Hlen at 2. rewrite length_fmap, length_seq in Hlen.
    lia.
  - pose proof (length_filter
                  (fun i => r_isActive (requestAt s i) = true
                            ∧ r_isMatched (requestAt s i) = false)
                  (ids_below (requestIdCounter s))) as Hlen.
    unfold ids_below in Hlen at 2. rewrite length_fmap, length_seq in Hlen.
    lia.
Qed.

(** ** Matches and the records they name *)

Lemma transact_failed (s : State) (env : Env) (c : Call) :
  succeeds env c s = false → fst (transact env c s) = s.
Proof. unfold succeeds, transact. by destruct (body env c s []). Qed.

(** Apart from a mined [createMatch], no transaction changes the match
    counter or what a match names. *)
Lemma match_names_step (s : State) (env : Env) (c : Call) :
  (∀ l r, c = CreateMatch l r → succeeds env c s = false) →
  matchCounter (fst (transact env c s)) = matchCounter s
  ∧ ∀ m,
      m_listingId (matchAt (fst (transact env c s)) m)
      = m_listingId (matchAt s m)
      ∧ m_requestId (matchAt (fst (transact env c s)) m)
        = m_requestId (matchAt s m)
      ∧ m_landlord (matchAt (fst (transact env c s)) m)
        = m_landlord (matchAt s m)
      ∧ m_tenant (matchAt (fst (transact env c s)) m)
        = m_tenant (matchAt s m).
Proof.
  intros Hc. destruct c;
    try (rewrite (transact_failed s env _ (Hc _ _ eq_refl)); done);
    clear Hc; unfold_calls; split_ifs; storage; try done.
  all: split; [done|]; intros m; unfold matchAt; storage.
  all: lookup_written m _matchId; rewrite ?lookup_insert_ne by done;
    try done.
  all: rewrite ?lookup_insert_eq; records.
  all: by destruct (default zeroMatch (matches s !! m)).
Qed.

Lemma matches_consistent (s : State) :
  reachable s →
  (∀ m, matchExists s m →
        listingExists s (m_listingId (matchAt s m))
        ∧ requestExists s (m_requestId (matchAt s m))
        ∧ l_isMatched (listingAt s (m_listingId (matchAt s m))) = true
        ∧ r_isMatched (requestAt s (m_requestId (matchAt s m))) = true
        ∧ m_landlord (matchAt s m)
          = l_landlord (listingAt s (m_listingId (matchAt s m)))
        ∧ m_tenant (matchAt s m)
          = r_tenant (requestAt s (m_requestId (matchAt s m))))
  ∧ (∀ m1 m2, matchExists s m1 → matchExists s m2 →
              m_listingId (matchAt s m1) = m_listingId (matchAt s m2)
              ∨ m_requestId (matchAt s m1) = m_requestId (matchAt s m2) →
              m1 = m2).
Proof.
  induction 1 as [env pausers kms|s env c Hs [IHi IHu]].
  - destruct (constructor_shape env pausers kms) as (pa & pl & ->).
    unfold matchExists. storage. split; intros; lia.
  - pose proof (wf_reachable s Hs) as Hwf.
    assert (Hkeep : ∀ m, matchExists s m →
              listingExists (fst (transact env c s)) (m_listingId (matchAt s m))
              ∧ requestExists (fst (transact env c s))
                  (m_requestId (matchAt s m))
              ∧ l_isMatched (listingAt (fst (transact env c s))
                               (m_listingId (matchAt s m))) = true
              ∧ r_isMatched (requestAt (fst (transact env c s))
                               (m_requestId (matchAt s m))) = true
              ∧ m_landlord (matchAt s m)
                = l_landlord (listingAt (fst (transact env c s))
                                (m_listingId (matchAt s m)))
              ∧ m_tenant (matchAt s m)
                = r_tenant (requestAt (fst (transact env c s))
                              (m_requestId (matchAt s m)))).
    { intros m Hm. destruct (IHi m Hm) as (Hl & Hr & Hlm & Hrm & Hll & Htt).
      split; [by apply listing_terms_step|].
      split; [by apply request_terms_step|].
      split; [by apply listing_matched_step|].
      split; [by apply request_matched_step|].
      by rewrite landlord_step, tenant_step. }
    assert (Hcases : (∃ l r, c = CreateMatch l r ∧ succeeds env c s = true)
                     ∨ (∀ l r, c = CreateMatch l r → succeeds env c s = false)).
    { destruct c; try (right; intros ? ? [=]; done).
      destruct (succeeds env (CreateMatch _listingId _requestId) s) eqn:E;
        [left; eauto | right; by intros ? ? [= <- <-]]. }
    destruct Hcases as [(l & r & -> & Hok)|Hno].
    + (* a mined createMatch *)
      destruct (createMatch_conditions s env l r Hwf Hok)
        as (_ & _ & (Hle & Hre & _ & _ & Hlm & Hrm) & _).
      destruct (createMatch_post s env l r Hok)
        as (Hlc & Hrc & Hmc & Hl' & Hr' & _ & _ & Hnew & Hold).
      assert (Hcase : ∀ m, matchExists (fst (transact env (CreateMatch l r) s)) m →
                m = matchCounter s ∨ (m ≠ matchCounter s ∧ matchExists s m)).
      { intros m. unfold matchExists. rewrite Hmc. lia. }
      split.
      * intros m [->|[Hne Hm]]%Hcase.
        -- rewrite Hnew. cbn [m_listingId m_requestId m_landlord m_tenant].
           rewrite Hl', Hr'. unfold listingExists, requestExists in *.
           rewrite Hlc, Hrc. done.
        -- rewrite Hold by done. by apply Hkeep.
      * intros m1 m2 [->|[Hne1 Hm1]]%Hcase [->|[Hne2 Hm2]]%Hcase; [done|..].
        -- rewrite Hnew, (Hold m2) by done. cbn [m_listingId m_requestId].
           destruct (IHi m2 Hm2) as (_ & _ & Hlm2 & Hrm2 & _).
           intros [Heq|Heq]; rewrite <- Heq in *; congruence.
        -- rewrite Hnew, (Hold m1) by done. cbn [m_listingId m_requestId].
           destruct (IHi m1 Hm1) as (_ & _ & Hlm1 & Hrm1 & _).
           intros [Heq|Heq]; rewrite Heq in *; congruence.
        -- rewrite !Hold by done. by apply IHu.
    + (* anything else *)
      destruct (match_names_step s env c Hno) as [Hmc Hnames].
      unfold matchExists in *. rewrite Hmc. split.
      * intros m Hm. destruct (Hnames m) as (-> & -> & -> & ->).
        by apply Hkeep.
      * intros m1 m2 Hm1 Hm2.
        destruct (Hnames m1) as (-> & -> & _), (Hnames m2) as (-> & -> & _).
        by apply IHu.
Qed.

(** X26. In every reachable state, each match names a listing and a
    request that exist and carry the matched flag, and its landlord and
    tenant are the owners of that listing and that request. *)
Theorem match_integrity (s : State) (m : N) :
  reachable s → matchExists s m →
  listingExists s (m_listingId (matchAt s m))
  ∧ requestExists s (m_requestId (matchAt s m))
  ∧ l_isMatched (listingAt s (m_listingId (matchAt s m))) = true
  ∧ r_isMatched (requestAt s (m_requestId (matchAt s m))) = true
  ∧ m_landlord (matchAt s m)
    = l_landlord (listingAt s (m_listingId (matchAt s m)))
  ∧ m_tenant (matchAt s m)
    = r_tenant (requestAt s (m_requestId (matchAt s m))).
Proof. intros Hs. apply (proj1 (matches_consistent s Hs)). Qed.

(** X27. In every reachable state, no listing and no request is named by
    two matches. *)
Theorem one_match_per_record (s : State) (m1 m2 : N) :
  reachable s → matchExists s m1 → matchExists s m2 →
  m_listingId (matchAt s m1) = m_listingId (matchAt s m2)
  ∨ m_requestId (matchAt s m1) = m_requestId (matchAt s m2) →
  m1 = m2.
Proof. intros Hs. apply (proj2 (matches_consistent s Hs)). Qed.

(** ** The further properties on the end-to-end history *)

Lemma listing_terms_immutable_witness :
  l_landlord (listingAt (run deployed end_to_end) 1) = 10
  ∧ encryptedPrice (listingAt (run deployed end_to_end) 1) = Some 2000.
Proof.
  assert (Hreach : reachable (run deployed listed_and_requested))
    by apply reachable_run, reachable_deploy.
  destruct (listing_terms_immutable (run deployed listed_and_requested)
              [(landlord, CreateMatch 1 1); (landlord, ConfirmMatch 1);
               (tenant, ConfirmMatch 1)] 1 Hreach)
    as (_ & Hprice & _ & _ & _ & Hlandlord & _).
  - split; by vm_compute.
  - unfold end_to_end. rewrite run_app. split.
    + rewrite Hlandlord. by vm_compute.
    + rewrite Hprice. by vm_compute.
Defined.

Lemma request_terms_immutable_witness :
  r_tenant (requestAt (run deployed end_to_end) 1) = 20
  ∧ encryptedMaxBudget (requestAt (run deployed end_to_end) 1) = Some 2500.
Proof.
  assert (Hreach : reachable (run deployed listed_and_requested))
    by apply reachable_run, reachable_deploy.
  destruct (request_terms_immutable (run deployed listed_and_requested)
              [(landlord, CreateMatch 1 1); (landlord, ConfirmMatch 1);
               (tenant, ConfirmMatch 1)] 1 Hreach)
    as (_ & Hbudget & _ & _ & _ & Htenant & _).
  - split; by vm_compute.
  - unfold end_to_end. rewrite run_app. split.
    + rewrite Htenant. by vm_compute.
    + rewrite Hbudget. by vm_compute.
Defined.

Lemma user_lists_exact_witness :
  getUserListings (run deployed end_to_end) 10
  = filter (fun id => l_landlord (listingAt (run deployed end_to_end) id) = 10)
      (ids_below (listingIdCounter (run deployed end_to_end))).
Proof.
  apply (user_lists_exact (run deployed end_to_end) 10).
  apply reachable_run, reachable_deploy.
Defined.

Lemma active_counts_witness :
  getActiveListingsCount
    (fst (transact landlord (CreateMatch 1 1)
            (run deployed listed_and_requested))) + 1
  = getActiveListingsCount (run deployed listed_and_requested).
Proof.
  assert (Hreach : reachable (run deployed listed_and_requested))
    by apply reachable_run, reachable_deploy.
  destruct (active_counts (run deployed listed_and_requested) landlord Hreach)
    as (_ & _ & Hmatch & _).
  apply (Hmatch 1 1). by vm_compute.
Defined.

Lemma match_integrity_witness :
  l_isMatched
    (listingAt (run deployed end_to_end)
       (m_listingId (matchAt (run deployed end_to_end) 1))) = true
  ∧ m_landlord (matchAt (run deployed end_to_end) 1)
    = l_landlord
        (listingAt (run deployed end_to_end)
           (m_listingId (matchAt (run deployed end_to_end) 1))).
Proof.
  destruct (match_integrity (run deployed end_to_end) 1)
    as (_ & _ & Hm & _ & Hl & _).
  - apply reachable_run, reachable_deploy.
  - split; by vm_compute.
  - split; [exact Hm | exact Hl].
Defined.

Lemma one_match_per_record_witness : (1 : N) = 1.
Proof.
  apply (one_match_per_record (run deployed end_to_end) 1 1).
  - apply reachable_run, reachable_deploy.
  - split; by vm_compute.
  - split; by vm_compute.
  - left. reflexivity.
Defined.

Lemma createListing_spec_witness :
  succeeds landlord (CreateListing 2000 2 12345 1) deployed = true
  ∧ succeeds landlord (CreateListing 2000 11 12345 1) deployed = false
  ∧ ∃ s',
      transact landlord (CreateListing 2000 2 12345 1) deployed
      = (s', Mined [ListingCreated 1 10])
      ∧ listingAt s' 1
        = {| encryptedPrice := Some 2000; encryptedBedrooms := Some 2;
             encryptedPostalCode := Some 12345;
             encryptedPropertyType := Some 1;
             l_isActive := true; l_landlord := 10;
             l_timestamp := timestamp landlord; l_isMatched := false |}.
Proof.
  pose proof (createListing_spec deployed landlord 2000 2 12345 1
                eq_refl eq_refl eq_refl eq_refl) as [Hiff Heffect].
  pose proof (createListing_spec deployed landlord 2000 11 12345 1
                eq_refl eq_refl eq_refl eq_refl) as [Hiff' _].
  assert (Hok : succeeds landlord (CreateListing 2000 2 12345 1) deployed
                = true).
  { apply Hiff. split; [reflexivity|]. split; [reflexivity|].
    split; [split; by vm_compute|]. split; [split; by vm_compute|].
    by vm_compute. }
  split; [exact Hok|]. split.
  - destruct (succeeds landlord (CreateListing 2000 11 12345 1) deployed);
      [|reflexivity].
    destruct (proj1 Hiff' eq_refl) as (_ & _ & [_ Hb] & _).
    by vm_compute in Hb.
  - destruct (Heffect Hok) as (s' & Htx & Hrec & _).
    exists s'. split; [exact Htx | exact Hrec].
Defined.

Lemma createRequest_spec_witness :
  succeeds tenant (CreateRequest 2500 2 12345 1) deployed = true
  ∧ succeeds tenant (CreateRequest 2500 2 12345 4) deployed = false
  ∧ ∃ s',
      transact tenant (CreateRequest 2500 2 12345 1) deployed
      = (s', Mined [RequestCreated 1 20])
      ∧ requestAt s' 1
        = {| encryptedMaxBudget := Some 2500; encryptedMinBedrooms := Some 2;
             encryptedPreferredPostalCode := Some 12345;
             encryptedPreferredPropertyType := Some 1;
             r_isActive := true; r_tenant := 20;
             r_timestamp := timestamp tenant; r_isMatched := false |}.
Proof.
  pose proof (createRequest_spec deployed tenant 2500 2 12345 1
                eq_refl eq_refl eq_refl eq_refl) as [Hiff Heffect].
  pose proof (createRequest_spec deployed tenant 2500 2 12345 4
                eq_refl eq_refl eq_refl eq_refl) as [Hiff' _].
  assert (Hok : succeeds tenant (CreateRequest 2500 2 12345 1) deployed
                = true).
  { apply Hiff. split; [reflexivity|]. split; [reflexivity|].
    split; [split; by vm_compute|]. split; [split; by vm_compute|].
    by vm_compute. }
  split; [exact Hok|]. split.
  - destruct (succeeds tenant (CreateRequest 2500 2 12345 4) deployed);
      [|reflexivity].
    destruct (proj1 Hiff' eq_refl) as (_ & _ & _ & [_ Ht] & _).
    by vm_compute in Ht.
  - destruct (Heffect Hok) as (s' & Htx & Hrec & _).
    exists s'. split; [exact Htx | exact Hrec].
Defined.

Lemma confirmMatch_spec_witness :
  isConfirmed
    (matchAt
       (run deployed
          (listed_and_requested
           ++ [(landlord, CreateMatch 1 1); (landlord, ConfirmMatch 1)])) 1)
  = false
  ∧ isConfirmed
      (matchAt
         (fst (transact tenant (ConfirmMatch 1)
                 (run deployed
                    (listed_and_requested
                     ++ [(landlord, CreateMatch 1 1);
                         (landlord, ConfirmMatch 1)])))) 1)
    = true.
Proof.
  split; [by vm_compute|].
  destruct (proj2 (confirmMatch_spec
                     (run deployed
                        (listed_and_requested
                         ++ [(landlord, CreateMatch 1 1);
                             (landlord, ConfirmMatch 1)]))
                     tenant 1))
    as (s' & Htx & _ & Htenant & _).
  - by vm_compute.
  - rewrite Htx. cbn [fst].
    destruct Htenant as (_ & _ & Hconfirmed); [by vm_compute|].
    rewrite Hconfirmed. by vm_compute.
Defined.

End ContractFacts.

(** * Further properties of the SDK core *)

Section MoreEncryptFacts.

(** X1. For every type but [ebool] and every value [BigInt()] accepts,
    [valueToBytes] gives exactly [getByteLengthForType] bytes, each in
    [0, 255], that decode to the value modulo [256 ^ length]: what does
    not fit (or is negative) wraps around. *)
Theorem valueToBytes_wraps (t : FheType) (v : value) (z : Z) :
  t ≠ ebool → Core.toBigInt v = Ok z →
  ∃ bytes : list Z,
    Core.valueToBytes v t = Ok bytes
    ∧ length bytes = Core.getByteLengthForType t
    ∧ Forall (fun b => 0 ≤ b < 256) bytes
    ∧ le_decode bytes = z mod 256 ^ Z.of_nat (Core.getByteLengthForType t).
Proof.
  intros Ht Hz. eexists. split; [by apply valueToBytes_le|].
  split; [apply length_le_encode|]. split; [apply le_encode_bytes|].
  apply le_decode_encode.
Qed.

Lemma valueToBytes_wraps_witness :
  ∃ bytes : list Z,
    Core.valueToBytes (VBigInt (-1)) euint16 = Ok bytes
    ∧ length bytes = 2%nat
    ∧ Forall (fun b => 0 ≤ b < 256) bytes
    ∧ le_decode bytes = 65535.
Proof.
  apply (valueToBytes_wraps euint16 (VBigInt (-1)) (-1)).
  - discriminate.
  - reflexivity.
Defined.

(** X2. For the type [ebool], [encrypt] accepts booleans and nothing else:
    [true] gives the ciphertext [0x01ebool], [false] gives [0x00ebool],
    and any number or bigint (also 0 and 1) is an invalid input. *)
Theorem encrypt_ebool (v : value) (cfg : FhevmConfig) :
  Core.encrypt v ebool cfg
  = match v with
    | VBoolean true => Ok {| ciphertext := "0x01ebool"; ev_type := ebool |}
    | VBoolean false => Ok {| ciphertext := "0x00ebool"; ev_type := ebool |}
    | _ => Throw (JsError "Invalid input for type ebool")
    end.
Proof. destruct v as [[z| |]|z|[|]]; reflexivity. Qed.

(** X4. [encrypt] has three outcomes only: the encrypted value, made of
    the bytes of [valueToBytes]; the invalid-input error; or, for a number
    that is not an integer (fractional, infinite or [NaN]) with a type
    other than [ebool], the [RangeError] of [BigInt()]. The "Encryption
    failed" handler is never reached. *)
Theorem encrypt_outcomes (v : value) (t : FheType) (cfg : FhevmConfig) :
  match Core.encrypt v t cfg with
  | Ok ev =>
      ev_type ev = t
      ∧ ∃ bytes, Core.valueToBytes v t = Ok bytes
                 ∧ ciphertext ev = Core.performEncryption bytes t cfg
  | Throw e =>
      e = JsError ("Invalid input for type " +:+ FheType_tag t)
      ∨ (e = JsRangeError
         ∧ (v = VNumber NonIntegral ∨ v = VNumber NotANumber) ∧ t ≠ ebool)
  end.
Proof.
  unfold Core.encrypt, Core.validateInput, Core.valueToBytes.
  destruct (decide (t = ebool)) as [->|Ht].
  - destruct v as [[z| |]|z|[|]]; cbn; eauto.
  - destruct (Core.toBigInt v) as [z|e] eqn:Hz; cbn [mbind result_bind].
    + assert (Hgo : ∀ ok : bool,
                match
                  (if negb ok
                   then Throw (JsError ("Invalid input for type "
                                        +:+ FheType_tag t))
                   else
                     try_catch
                       (Ok {| ciphertext :=
                                Core.performEncryption
                                  (foldl Core.valueToBytes_step
                                     (replicate (Core.getByteLengthForType t) 0,
                                      z)
                                     (seq 0 (Core.getByteLengthForType t))).1
                                  t cfg;
                              ev_type := t |})
                       (fun error =>
                          JsError ("Encryption failed: "
                                   +:+ exn_to_string error)))
                with
                | Ok ev =>
                    ev_type ev = t
                    ∧ ∃ bytes,
                        Ok (foldl Core.valueToBytes_step
                              (replicate (Core.getByteLengthForType t) 0, z)
                              (seq 0 (Core.getByteLengthForType t))).1
                        = Ok bytes
                        ∧ ciphertext ev = Core.performEncryption bytes t cfg
                | Throw e =>
                    e = JsError ("Invalid input for type " +:+ FheType_tag t)
                    ∨ (e = JsRangeError
                       ∧ (v = VNumber NonIntegral ∨ v = VNumber NotANumber)
                       ∧ t ≠ ebool)
                end).
      { intros [|]; cbn; eauto. }
      destruct t; try done; apply Hgo.
    + destruct v as [[z| |]|z|[|]]; simplify_eq/=; right; auto.
Qed.

(** X5. On one unsigned-integer type, two in-range values with the same
    ciphertext are the same value. *)
Theorem encrypt_injective (t : FheType) (bits : nat) (z1 z2 : Z)
    (cfg : FhevmConfig) :
  uint_bits t = Some bits → in_range bits z1 → in_range bits z2 →
  Core.encrypt (VBigInt z1) t cfg = Core.encrypt (VBigInt z2) t cfg →
  z1 = z2.
Proof.
  intros Ht H1 H2.
  assert (Hne : t ≠ ebool) by (by intros ->).
  assert (Hpow : 256 ^ Z.of_nat (Core.getByteLengthForType t)
                 = 2 ^ Z.of_nat bits)
    by (destruct t; by simplify_eq/=).
  unfold Core.encrypt.
  rewrite (validateInput_in_range t bits z1 (VBigInt z1) Ht H1 eq_refl).
  rewrite (validateInput_in_range t bits z2 (VBigInt z2) Ht H2 eq_refl).
  cbn [mbind result_bind negb].
  rewrite (valueToBytes_le t (VBigInt z1) z1 Hne eq_refl).
  rewrite (valueToBytes_le t (VBigInt z2) z2 Hne eq_refl).
  cbn [mbind result_bind try_catch].
  intros Hc.
  apply (f_equal (fun r => match r with
                           | Ok ev => ciphertext ev
                           | Throw _ => ""
                           end)) in Hc.
  cbn [ciphertext] in Hc.
  assert (Hb : Some (le_encode (Core.getByteLengthForType t) z1)
               = Some (le_encode (Core.getByteLengthForType t) z2)).
  { rewrite <- (ciphertext_bytes_performEncryption _ t cfg
                  (le_encode_bytes _ z1) (length_le_encode _ z1)).
    rewrite <- (ciphertext_bytes_performEncryption _ t cfg
                  (le_encode_bytes _ z2) (length_le_encode _ z2)).
    by rewrite Hc. }
  injection Hb as Hb. apply (f_equal le_decode) in Hb.
  rewrite !le_decode_encode, Hpow in Hb.
  unfold in_range in *. by rewrite !Z.mod_small in Hb.
Qed.

Lemma encrypt_injective_witness : (7 : Z) = 7.
Proof.
  apply (encrypt_injective euint8 8 7 7 cfg0).
  - reflexivity.
  - unfold in_range. lia.
  - unfold in_range. lia.
  - reflexivity.
Defined.

(** X3. For the types [euint8], [euint16], [euint32] and [euint64],
    [encrypt] of an integer resolves exactly when the integer is in the
    range of the type; outside it the call rejects with the invalid-input
    error. *)
Theorem encrypt_narrow_uint_accepts_iff (t : FheType) (bits : nat) (z : Z)
    (v : value) (cfg : FhevmConfig) :
  t ∈ [euint8; euint16; euint32; euint64] →
  uint_bits t = Some bits → Core.toBigInt v = Ok z →
  ((∃ ev, Core.encrypt v t cfg = Ok ev) ↔ in_range bits z)
  ∧ (¬ in_range bits z →
     Core.encrypt v t cfg
     = Throw (JsError ("Invalid input for type " +:+ FheType_tag t))).
Proof.
  intros Ht Hb Hv.
  assert (Hne : t ≠ ebool) by (by intros ->).
  split; [|intros Hout; by apply (encrypt_small_uint_out_of_range t bits z)].
  split.
  - intros [ev Hev]. destruct (decide (in_range bits z)) as [|Hout]; [done|].
    by rewrite (encrypt_small_uint_out_of_range t bits z v cfg) in Hev.
  - intros Hin. unfold Core.encrypt.
    rewrite (validateInput_in_range t bits z v) by done.
    cbn [mbind result_bind negb].
    rewrite (valueToBytes_le t v z) by done. cbn. eauto.
Qed.

Lemma encrypt_narrow_uint_accepts_iff_witness :
  Core.encrypt (VBigInt 256) euint8 cfg0
  = Throw (JsError ("Invalid input for type " +:+ FheType_tag euint8)).
Proof.
  apply (encrypt_narrow_uint_accepts_iff euint8 8 256 (VBigInt 256) cfg0).
  - rewrite !elem_of_cons. tauto.
  - reflexivity.
  - reflexivity.
  - unfold in_range. lia.
Defined.

End MoreEncryptFacts.

(** * Properties of the decryption calls *)

Section GatewayFacts.
Import Gateway.

Variable BigIntOfString : string → thrown + Z.

(** X6. Whatever goes wrong in [publicDecrypt] or [userDecrypt] (the
    request fails, the status is not a success, the body is not JSON, the
    value is not an integer), the caller gets an [Error] whose message
    starts with the call's own prefix. *)
Theorem decrypt_failures_wrapped (fetch : Post) (request : DecryptionRequest)
    (signature ciphertext : string) (type : FheType) (config : FhevmConfig)
    (e : exn) :
  (publicDecrypt BigIntOfString fetch ciphertext type config = Throw e →
   ∃ why, e = JsError ("Public decryption failed: " +:+ why))
  ∧ (userDecrypt BigIntOfString fetch request signature config = Throw e →
     ∃ why, e = JsError ("User decryption failed: " +:+ why)).
Proof.
  unfold publicDecrypt, userDecrypt.
  split; intros H;
    repeat match type of H with
           | context [match ?x with _ => _ end] => destruct x
           end;
    simplify_eq; eauto.
Qed.

(** X7. On a response whose status is not a success, [publicDecrypt] and
    [userDecrypt] reject with the gateway error carrying the status text;
    the body is not looked at. *)
Theorem decrypt_gateway_error (fetch : Post) (request : DecryptionRequest)
    (signature : string) (config : FhevmConfig) (response : Response) :
  ok response = false →
  (fetch (gatewayUrl config +:+ "/public-decrypt")
     (PublicDecryptBody (dr_ciphertext request) (dr_type request))
   = Settles response →
   publicDecrypt BigIntOfString fetch (dr_ciphertext request)
     (dr_type request) config
   = Throw (JsError ("Public decryption failed: Error: Gateway error: "
                     +:+ statusText response)))
  ∧ (fetch (gatewayUrl config +:+ "/user-decrypt")
       (UserDecryptBody request signature)
     = Settles response →
     userDecrypt BigIntOfString fetch request signature config
     = Throw (JsError ("User decryption failed: Error: Gateway error: "
                       +:+ statusText response))).
Proof.
  intros Hok. unfold publicDecrypt, userDecrypt.
  split; intros ->; by rewrite Hok.
Qed.

(** X8. On a successful response, a boolean or an address is never
    refused: for [ebool] the result is [true] exactly when the returned
    text is ["1"] or ["true"] (any other text is [false]); for [eaddress]
    the text is returned as it came. *)
Theorem publicDecrypt_ebool_eaddress (fetch : Post) (ciphertext : string)
    (config : FhevmConfig) (response : Response) (value : string) :
  ok response = true → json response = inr value →
  (fetch (gatewayUrl config +:+ "/public-decrypt")
     (PublicDecryptBody ciphertext ebool) = Settles response →
   ∃ b, publicDecrypt BigIntOfString fetch ciphertext ebool config
        = Ok {| dv_value := DBoolean b; dv_type := ebool |}
        ∧ (b = true ↔ value = "1" ∨ value = "true"))
  ∧ (fetch (gatewayUrl config +:+ "/public-decrypt")
       (PublicDecryptBody ciphertext eaddress) = Settles response →
     publicDecrypt BigIntOfString fetch ciphertext eaddress config
     = Ok {| dv_value := DString value; dv_type := eaddress |}).
Proof.
  intros Hok Hjson. unfold publicDecrypt, parseDecryptedValue.
  split; intros ->; rewrite Hok, Hjson; cbn.
  - eexists. split; [reflexivity|].
    rewrite orb_true_iff, !String.eqb_eq. done.
  - reflexivity.
Qed.

(** X9. On a successful response for an integer type, the result is what
    [BigInt] makes of the returned text, with no check against the width
    of the type; when [BigInt] refuses the text the call rejects. *)
Theorem userDecrypt_integer (fetch : Post) (request : DecryptionRequest)
    (signature : string) (config : FhevmConfig) (response : Response)
    (value : string) :
  dr_type request ≠ ebool → dr_type request ≠ eaddress →
  fetch (gatewayUrl config +:+ "/user-decrypt")
    (UserDecryptBody request signature) = Settles response →
  ok response = true → json response = inr value →
  userDecrypt BigIntOfString fetch request signature config
  = match BigIntOfString value with
    | inr z => Ok {| dv_value := DBigInt z; dv_type := dr_type request |}
    | inl error => Throw (JsError ("User decryption failed: " +:+ error))
    end.
Proof.
  intros Hb Ha Hf Hok Hjson. unfold userDecrypt, parseDecryptedValue.
  rewrite Hf, Hok, Hjson. cbn [negb].
  destruct (decide (dr_type request = ebool)); [done|].
  destruct (decide (dr_type request = eaddress)); [done|].
  by destruct (BigIntOfString value).
Qed.

End GatewayFacts.

Section GatewayWitnesses.
Import Gateway.

Lemma decrypt_gateway_error_witness :
  publicDecrypt only_42 (refusing "Service Unavailable") "0x2a" euint8 cfg0
  = Throw (JsError ("Public decryption failed: Error: Gateway error: "
                    +:+ "Service Unavailable"))
  ∧ userDecrypt only_42 (refusing "Service Unavailable")
      {| dr_ciphertext := "0x2a"; dr_type := euint8;
         contractAddress := "0xc" |}
      "sig" cfg0
    = Throw (JsError ("User decryption failed: Error: Gateway error: "
                      +:+ "Service Unavailable")).
Proof.
  pose proof (decrypt_gateway_error only_42 (refusing "Service Unavailable")
                {| dr_ciphertext := "0x2a"; dr_type := euint8;
                   contractAddress := "0xc" |}
                "sig" cfg0
                {| ok := false; statusText := "Service Unavailable";
                   json := inl "SyntaxError: Unexpected end of JSON input" |}
                eq_refl) as [Hpublic Huser].
  split; [apply Hpublic|apply Huser]; reflexivity.
Defined.

Lemma publicDecrypt_ebool_eaddress_witness :
  ∃ b, publicDecrypt only_42 (answering "TRUE") "0x01ebool" ebool cfg0
       = Ok {| dv_value := DBoolean b; dv_type := ebool |}
       ∧ (b = true ↔ "TRUE" = "1" ∨ "TRUE" = "true").
Proof.
  apply (proj1 (publicDecrypt_ebool_eaddress only_42 (answering "TRUE")
                  "0x01ebool" cfg0
                  {| ok := true; statusText := "OK"; json := inr "TRUE" |}
                  "TRUE" eq_refl eq_refl)).
  reflexivity.
Defined.

Lemma userDecrypt_integer_witness :
  userDecrypt only_42 (answering "42")
    {| dr_ciphertext := "0x2a"; dr_type := euint8; contractAddress := "0xc" |}
    "sig" cfg0
  = Ok {| dv_value := DBigInt 42; dv_type := euint8 |}.
Proof.
  apply (userDecrypt_integer only_42 (answering "42")
           {| dr_ciphertext := "0x2a"; dr_type := euint8;
              contractAddress := "0xc" |}
           "sig" cfg0
           {| ok := true; statusText := "OK"; json := inr "42" |} "42").
  - discriminate.
  - discriminate.
  - reflexivity.
  - reflexivity.
  - reflexivity.
Defined.

End GatewayWitnesses.

(** * Further properties of the client registry *)

Section MoreRegistryFacts.
Import Registry.

(** X10. Whatever its outcome, [initFhevm] creates at most one new client
    object and never touches one that already exists. *)
Theorem initFhevm_preserves_objects (fetch : Fetch) (cfg : FhevmConfig)
    (rt : Runtime) :
  (length (heap rt) ≤ length (heap (snd (initFhevm fetch cfg rt)))
   ≤ S (length (heap rt)))%nat
  ∧ ∀ (r : ref) (c : FhevmClient),
      heap rt !! r = Some c →
      heap (snd (initFhevm fetch cfg rt)) !! r = Some c.
Proof.
  unfold initFhevm.
  destruct (readyInstance rt); [cbn; split; [lia|done]|].
  destruct (testGatewayConnection fetch (gatewayUrl cfg));
    cbn [snd heap]; rewrite ?length_insert, length_app; cbn [length];
    (split; [lia|]); intros r c Hc;
    pose proof (lookup_lt_Some _ _ _ Hc) as Hlt.
  - rewrite list_lookup_insert_ne by lia. by apply lookup_app_l_Some.
  - by apply lookup_app_l_Some.
Qed.

(** X11. [initFhevm] resolves exactly when there is a ready singleton or
    the health probe answers with a success; without a ready singleton a
    success makes a new object, ready and carrying the given
    configuration, and registers it. *)
Theorem initFhevm_success (fetch : Fetch) (cfg : FhevmConfig) (rt : Runtime) :
  ((∃ r, fst (initFhevm fetch cfg rt) = Ok r) ↔
   (∃ r, readyInstance rt = Some r)
   ∨ fetch (gatewayUrl cfg +:+ "/health") = Responds true)
  ∧ (readyInstance rt = None →
     fetch (gatewayUrl cfg +:+ "/health") = Responds true →
     fst (initFhevm fetch cfg rt) = Ok (length (heap rt))
     ∧ heap rt !! length (heap rt) = None
     ∧ heap (snd (initFhevm fetch cfg rt)) !! length (heap rt)
       = Some {| config := cfg; isInitialized := true |}
     ∧ getFhevmClient (snd (initFhevm fetch cfg rt))
       = Some (length (heap rt))).
Proof.
  unfold initFhevm, testGatewayConnection, getFhevmClient. split.
  - destruct (readyInstance rt) as [r|]; [cbn; split; eauto|].
    destruct (fetch (gatewayUrl cfg +:+ "/health")) as [[|]|e]; cbn.
    + split; eauto.
    + split; [by intros [? ?]|]. intros [[? ?]|?]; done.
    + split; [by intros [? ?]|]. intros [[? ?]|?]; done.
  - intros -> ->. cbn.
    split; [done|]. split; [by apply lookup_ge_None_2|]. split; [|done].
    apply list_lookup_insert_eq. rewrite length_app. cbn. lia.
Qed.

Lemma run_inits_ready (rt : Runtime) (r : ref)
    (calls : list (Fetch * FhevmConfig)) :
  readyInstance rt = Some r → run_inits rt calls = rt.
Proof.
  intros Hr. induction calls as [|[fetch cfg] calls IH]; [done|].
  cbn [run_inits]. by rewrite (initFhevm_ready fetch cfg rt r Hr).
Qed.

(** X12. Once a singleton is ready, no sequence of [initFhevm] calls,
    with whatever configurations and gateways, changes anything: the
    singleton, its configuration and the whole runtime stay as they are. A
    configuration given later is ignored. *)
Theorem singleton_is_permanent (rt : Runtime) (r : ref) (c : FhevmClient)
    (calls : list (Fetch * FhevmConfig)) :
  readyInstance rt = Some r → heap rt !! r = Some c →
  run_inits rt calls = rt
  ∧ getFhevmClient (run_inits rt calls) = Some r
  ∧ heap (run_inits rt calls) !! r = Some c
  ∧ ∀ fetch cfg,
      initFhevm fetch cfg (run_inits rt calls) = (Ok r, run_inits rt calls).
Proof.
  intros Hr Hc. rewrite (run_inits_ready rt r calls Hr).
  split; [done|]. split; [|split; [done|]].
  - unfold readyInstance in Hr. unfold getFhevmClient.
    destruct (globalInstance rt) as [r'|]; [|done].
    destruct (heap rt !! r') as [c'|]; [|done].
    by destruct (isInitialized c'); simplify_eq.
  - intros fetch cfg. by apply initFhevm_ready.
Qed.

Lemma registered_ready_step (fetch : Fetch) (cfg : FhevmConfig) (rt : Runtime) :
  getFhevmClient rt = readyInstance rt →
  getFhevmClient (snd (initFhevm fetch cfg rt))
  = readyInstance (snd (initFhevm fetch cfg rt)).
Proof.
  intros Hinv. unfold initFhevm.
  destruct (readyInstance rt) as [r|] eqn:Hr; [by cbn; rewrite Hr|].
  destruct (testGatewayConnection fetch (gatewayUrl cfg)); cbn [snd].
  - by rewrite readyInstance_fresh.
  - unfold getFhevmClient in *. unfold readyInstance.
    cbn [globalInstance]. by rewrite Hinv.
Qed.

(** X13. Starting with nothing initialized, after any sequence of
    [initFhevm] calls [getFhevmClient] is either [null] or a client that is
    ready: a client that is not ready is never registered. *)
Theorem registered_client_is_ready (calls : list (Fetch * FhevmConfig)) :
  getFhevmClient (run_inits rt0 calls) = readyInstance (run_inits rt0 calls).
Proof.
  assert (H0 : getFhevmClient rt0 = readyInstance rt0) by done.
  revert H0. generalize rt0.
  induction calls as [|[fetch cfg] calls IH]; intros rt Hrt; [done|].
  cbn [run_inits]. by apply IH, registered_ready_step.
Qed.

End MoreRegistryFacts.

Section MoreRegistryWitnesses.
Import Registry.

Lemma initFhevm_preserves_objects_witness :
  (length (heap rt0)
   ≤ length (heap (snd (initFhevm (fun _ => Responds false) cfg0 rt0)))
   ≤ S (length (heap rt0)))%nat
  ∧ heap (snd (initFhevm (fun _ => Responds true) cfg0
                 (snd (initFhevm (fun _ => Responds false) cfg0 rt0))))
      !! 0%nat
    = Some {| config := cfg0; isInitialized := false |}.
Proof.
  split.
  - apply (initFhevm_preserves_objects (fun _ => Responds false) cfg0 rt0).
  - apply (initFhevm_preserves_objects (fun _ => Responds true) cfg0
             (snd (initFhevm (fun _ => Responds false) cfg0 rt0))).
    reflexivity.
Defined.

Lemma singleton_is_permanent_witness :
  run_inits
    {| heap := [{| config := cfg0; isInitialized := true |}];
       globalInstance := Some 0%nat |}
    [(fun _ => Responds true,
      {| network := mainnet; gatewayUrl := "https://gateway.example";
         aclAddress := None; kmsVerifierAddress := None; chainId := None;
         debug := Some true |})]
  = {| heap := [{| config := cfg0; isInitialized := true |}];
       globalInstance := Some 0%nat |}.
Proof.
  apply (singleton_is_permanent
           {| heap := [{| config := cfg0; isInitialized := true |}];
              globalInstance := Some 0%nat |} 0%nat
           {| config := cfg0; isInitialized := true |}).
  - reflexivity.
  - reflexivity.
Defined.

End MoreRegistryWitnesses.

Section MoreRegistryWitnesses2.
Import Registry.

Lemma initFhevm_success_witness :
  fst (initFhevm (fun _ => Responds true) cfg0 rt0) = Ok 0%nat
  ∧ heap (snd (initFhevm (fun _ => Responds true) cfg0 rt0)) !! 0%nat
    = Some {| config := cfg0; isInitialized := true |}.
Proof.
  destruct (proj2 (initFhevm_success (fun _ => Responds true) cfg0 rt0)
              eq_refl eq_refl) as (Hres & _ & Hobj & _).
  split; [exact Hres | exact Hobj].
Defined.

End MoreRegistryWitnesses2.

(** * Properties of the provider's effect and of the hooks *)

Section HookFacts.
Import Registry React Hooks.

(** X14. When the provider's [initialize] has settled, [isInitializing]
    is false, and [isInitialized] is true exactly when no error is
    published; in that case the published client is the ready singleton.
    With a ready singleton already there, it is published as it is, the
    provider's own configuration is not used and the gateway is not
    contacted. *)
Theorem FhevmProvider_initialize_settled (fetch : Fetch) (cfg : FhevmConfig)
    (st : FhevmContextValue) (rt : Runtime) :
  isInitializing (fst (FhevmProvider_initialize fetch cfg st rt)) = false
  ∧ (React.isInitialized (fst (FhevmProvider_initialize fetch cfg st rt)) = true
     ↔ error (fst (FhevmProvider_initialize fetch cfg st rt)) = None)
  ∧ (React.isInitialized (fst (FhevmProvider_initialize fetch cfg st rt)) = true →
     ∃ r, client (fst (FhevmProvider_initialize fetch cfg st rt)) = Some r
          ∧ readyInstance (snd (FhevmProvider_initialize fetch cfg st rt))
            = Some r)
  ∧ (∀ r, readyInstance rt = Some r →
          FhevmProvider_initialize fetch cfg st rt
          = ({| client := Some r; React.isInitialized := true;
                isInitializing := false; error := None |}, rt)).
Proof.
  unfold FhevmProvider_initialize.
  destruct (readyInstance rt) as [r0|] eqn:Hr.
  - cbn. repeat split; eauto. by intros r [= ->].
  - destruct (initFhevm fetch cfg rt) as [[r|e] rt1] eqn:Hinit.
    + pose proof (initFhevm_success_ready _ _ _ _ _ Hinit) as Hready.
      assert (Hci : client_isInitialized rt1 r = true).
      { unfold client_isInitialized. unfold readyInstance in Hready.
        destruct (globalInstance rt1) as [r1|]; [|done].
        destruct (heap rt1 !! r1) as [c|] eqn:Hc; [|done].
        destruct (Registry.isInitialized c) eqn:Hi; simplify_eq.
        by rewrite Hc. }
      cbn. rewrite Hci. repeat split; eauto. done.
    + cbn. repeat split; try done.
Qed.

(** X15. When the health probe fails and there is no ready singleton, the
    provider publishes the initialization error with [isInitialized]
    false, keeps publishing whatever client it published before, and
    registers nothing. *)
Theorem FhevmProvider_initialize_failure (fetch : Fetch) (cfg : FhevmConfig)
    (st : FhevmContextValue) (rt : Runtime) :
  readyInstance rt = None →
  fetch (gatewayUrl cfg +:+ "/health") ≠ Responds true →
  fst (FhevmProvider_initialize fetch cfg st rt)
  = {| client := client st; React.isInitialized := false;
       isInitializing := false;
       error := Some (JsError ("Failed to initialize FHEVM SDK: "
                               +:+ "Error: Cannot connect to Gateway at "
                               +:+ gatewayUrl cfg)) |}
  ∧ getFhevmClient (snd (FhevmProvider_initialize fetch cfg st rt))
    = getFhevmClient rt.
Proof.
  intros Hr Hf. unfold FhevmProvider_initialize, initFhevm.
  rewrite Hr, (testGatewayConnection_fails _ _ Hf). done.
Qed.

(** X16. The [encrypt] callback of [useEncrypt]: without a client, or
    before the context says initialized, it rejects with "FHEVM client not
    initialized" and leaves the hook's state alone (the error is not
    recorded). Otherwise it settles as the client's [encrypt] does,
    [isEncrypting] is false afterwards, the error recorded is the one
    thrown (none on success), and a failure keeps the earlier result. *)
Theorem useEncrypt_encrypt_settled (c : option FhevmClient)
    (initialized : bool) (v : value) (t : FheType) (hs : EncryptState) :
  match c with
  | Some obj =>
      if initialized then
        fst (useEncrypt_encrypt c initialized v t hs)
        = Core.encrypt v t (config obj)
        ∧ isEncrypting (snd (useEncrypt_encrypt c initialized v t hs)) = false
        ∧ match Core.encrypt v t (config obj) with
          | Ok encrypted =>
              enc_error (snd (useEncrypt_encrypt c initialized v t hs)) = None
              ∧ enc_result (snd (useEncrypt_encrypt c initialized v t hs))
                = Some encrypted
          | Throw e =>
              enc_error (snd (useEncrypt_encrypt c initialized v t hs))
              = Some e
              ∧ enc_result (snd (useEncrypt_encrypt c initialized v t hs))
                = enc_result hs
          end
      else
        useEncrypt_encrypt c initialized v t hs
        = (Throw (JsError "FHEVM client not initialized"), hs)
  | None =>
      useEncrypt_encrypt c initialized v t hs
      = (Throw (JsError "FHEVM client not initialized"), hs)
  end.
Proof.
  destruct c as [obj|]; [|done]. destruct initialized; [|done].
  unfold useEncrypt_encrypt, client_encrypt. cbn [negb].
  by destruct (Core.encrypt v t (config obj)).
Qed.

Variable BigIntOfString : string → Gateway.thrown + Z.

(** X17. The [decrypt] callback of [useDecrypt] goes through the client's
    [userDecrypt], not its [decrypt]: every rejection is either the "not
    initialized" error, with the hook's state untouched, or a "User
    decryption failed" error, recorded as the hook's error with the
    earlier result kept; a success is recorded as the result with the
    error cleared. *)
Theorem useDecrypt_decrypt_settled (fetch : Gateway.Post)
    (c : option FhevmClient) (initialized : bool)
    (request : Gateway.DecryptionRequest) (signature : string)
    (hs : DecryptState) :
  match useDecrypt_decrypt BigIntOfString fetch c initialized request
          signature hs with
  | (Ok d, hs') =>
      (∃ obj, c = Some obj ∧ initialized = true
              ∧ Gateway.userDecrypt BigIntOfString fetch request signature
                  (config obj) = Ok d)
      ∧ hs' = {| isDecrypting := false; dec_error := None;
                 dec_result := Some d |}
  | (Throw e, hs') =>
      (e = JsError "FHEVM client not initialized"
       ∧ (c = None ∨ initialized = false) ∧ hs' = hs)
      ∨ ((∃ why, e = JsError ("User decryption failed: " +:+ why))
         ∧ hs' = {| isDecrypting := false; dec_error := Some e;
                    dec_result := dec_result hs |})
  end.
Proof.
  unfold useDecrypt_decrypt.
  destruct c as [obj|]; [|left; eauto].
  destruct initialized; cbn [negb]; [|left; eauto].
  unfold settle_decrypt.
  destruct (Gateway.userDecrypt BigIntOfString fetch request signature
              (config obj)) as [d|e] eqn:Hd.
  - split; eauto.
  - right. split; [|done].
    revert Hd. unfold Gateway.userDecrypt. intros Hd.
    repeat match type of Hd with
           | context [match ?x with _ => _ end] => destruct x
           end; simplify_eq; eauto.
Qed.

End HookFacts.

Section HookWitnesses.
Import Registry React Hooks.

Lemma FhevmProvider_initialize_failure_witness :
  fst (FhevmProvider_initialize (fun _ => Responds false) cfg0
         FhevmProvider_initial rt0)
  = {| client := None; React.isInitialized := false;
       isInitializing := false;
       error := Some (JsError ("Failed to initialize FHEVM SDK: "
                               +:+ "Error: Cannot connect to Gateway at "
                               +:+ gatewayUrl cfg0)) |}.
Proof.
  apply (FhevmProvider_initialize_failure (fun _ => Responds false) cfg0
           FhevmProvider_initial rt0).
  - reflexivity.
  - discriminate.
Defined.

End HookWitnesses.
